(** * Chunk-shape resolution and boundary-break detection

    A shallow embedding of [xarray/core/chunk.py] ([_get_breaks_cached],
    [_get_chunk] and [_maybe_chunk]) together with the properties its
    specification states.

    Python integers are unbounded, hence [Z]; tuples of integers are
    [list Z]; dictionaries consulted by key are [gmap]; the dictionary that
    is built and returned keeps Python's insertion order, hence an
    association list with dictionary update. *)

From Stdlib Require Import ZArith List Lia.
From stdpp Require Import base gmap strings list fin_maps.

Local Open Scope Z_scope.

(** ** Python values and exceptions *)

(** The exceptions that the modelled code can raise: [ValueError] (a
    [range] with step zero, a [zip(..., strict=True)] over sequences of
    different lengths) and whatever the chunk manager raises. *)
Inductive exception : Type :=
  | ValueError
  | ChunkManagerError (msg : string).

Inductive result (A : Type) : Type :=
  | Ok (a : A)
  | Raise (e : exception).
Arguments Ok {A} a.
Arguments Raise {A} e.

(** [preferred_chunk_sizes : int | tuple[int, ...]]. *)
Inductive preferred : Type :=
  | PInt (p : Z)
  | PTuple (l : list Z).

#[global] Instance exception_eq_dec : EqDecision exception.
Proof. solve_decision. Defined.

#[global] Instance preferred_eq_dec : EqDecision preferred.
Proof. solve_decision. Defined.

(** ** Builtins used by the detector *)

(** [range(start, stop, step)]; the constructor raises [ValueError] when
    [step] is zero. *)
Record range : Type := mk_range { start : Z; stop : Z; step : Z }.

Definition range_new (start stop step : Z) : result range :=
  if step =? 0 then Raise ValueError else Ok (mk_range start stop step).

(** [a in r] for an integer [a]: inside the half-open interval in the
    direction of the step, and on the grid of the step. *)
Definition range_contains (r : range) (a : Z) : bool :=
  (if 0 <? step r
   then (start r <=? a) && (a <? stop r)
   else (stop r <? a) && (a <=? start r))
  && ((a - start r) mod step r =? 0).

(** [t[:-1]]: all but the last element (empty on the empty tuple). *)
Definition drop_last (t : list Z) : list Z := removelast t.

(** [itertools.accumulate(t)]: the running sums, the first being the first
    element itself. *)
Fixpoint accumulate_from (total : Z) (t : list Z) : list Z :=
  match t with
  | [] => []
  | x :: t' => (total + x) :: accumulate_from (total + x) t'
  end.

Definition accumulate (t : list Z) : list Z :=
  match t with
  | [] => []
  | x :: t' => x :: accumulate_from x t'
  end.

(** [itertools.compress(data, selectors)]. *)
Fixpoint compress {A : Type} (data : list A) (selectors : list bool) : list A :=
  match data, selectors with
  | d :: data', s :: selectors' =>
      if s then d :: compress data' selectors' else compress data' selectors'
  | _, _ => []
  end.

(** [next(it)] under [try ... except StopIteration: return None]. *)
Definition next_or_None {A : Type} (it : list A) : option A :=
  match it with
  | [] => None
  | x :: _ => Some x
  end.

(** ** The boundary-break detector *)

(** [preferred_stops] is either a [range] or a [set]. *)
Inductive stops : Type :=
  | StopsRange (r : range)
  | StopsSet (s : gset Z).

Definition stops_contains (ps : stops) (a : Z) : bool :=
  match ps with
  | StopsRange r => range_contains r a
  | StopsSet s => bool_decide (a ∈ s)
  end.

Definition preferred_stops_of (size : Z) (preferred_chunk_sizes : preferred)
  : result stops :=
  match preferred_chunk_sizes with
  | PInt p =>
      match range_new p size p with
      | Ok r => Ok (StopsRange r)
      | Raise e => Raise e
      end
  | PTuple l => Ok (StopsSet (list_to_set (accumulate (drop_last l))))
  end.

(** The body of [_get_breaks_cached], that is, the function that
    [lru_cache] wraps. *)
Definition _get_breaks (size : Z) (chunk_sizes : list Z)
    (preferred_chunk_sizes : preferred) : result (option Z) :=
  match preferred_chunk_sizes with
  | PInt 1 => Ok None
  | _ =>
      match preferred_stops_of size preferred_chunk_sizes with
      | Raise e => Raise e
      | Ok preferred_stops =>
          let actual_stops := accumulate (drop_last chunk_sizes) in
          let actual_stops_2 := accumulate (drop_last chunk_sizes) in
          let disagrees :=
            compress actual_stops_2
              (map (fun a => negb (stops_contains preferred_stops a))
                 actual_stops) in
          Ok (next_or_None disagrees)
      end
  end.

(** ** The [lru_cache(maxsize=512)] decorator

    The cache maps the argument triple to the value returned; the most
    recently used entry comes first.  A hit moves the entry to the front; a
    miss runs the function and, when it returns, stores the value, evicting
    the least recently used entry of a full cache.  A call that raises
    stores nothing.

    The key holds the three argument values.  [functools.lru_cache] also
    keys a call by the order in which its keywords are written; the call
    in [_get_chunk] always writes them in the same order, and the order is
    left out here.  It bears on which calls hit, not on what a call
    returns. *)

Definition key : Type := Z * list Z * preferred.

Definition lru : Type := list (key * option Z).

Definition maxsize : nat := 512.

Fixpoint cache_get (k : key) (c : lru) : option (option Z) :=
  match c with
  | [] => None
  | (k', v) :: c' => if decide (k = k') then Some v else cache_get k c'
  end.

Fixpoint cache_unlink (k : key) (c : lru) : lru :=
  match c with
  | [] => []
  | (k', v) :: c' =>
      if decide (k = k') then cache_unlink k c' else (k', v) :: cache_unlink k c'
  end.

Definition cache_move_to_front (k : key) (v : option Z) (c : lru) : lru :=
  (k, v) :: cache_unlink k c.

Definition cache_store (k : key) (v : option Z) (c : lru) : lru :=
  take maxsize ((k, v) :: c).

(** ** Effects: the cache, the warnings emitted, and exceptions *)

(** A warning carries what the message interpolates: the dimension and the
    index at which the stored chunks are first separated. *)
Definition warning : Type := string * Z.

Record outcome (A : Type) : Type := mk_outcome {
  cache_after : lru;
  warnings : list warning;
  returned : result A
}.
Arguments mk_outcome {A} _ _ _.
Arguments cache_after {A} _.
Arguments warnings {A} _.
Arguments returned {A} _.

Definition M (A : Type) : Type := lru -> outcome A.

Definition ret {A : Type} (a : A) : M A :=
  fun c => mk_outcome c [] (Ok a).

Definition raise {A : Type} (e : exception) : M A :=
  fun c => mk_outcome c [] (Raise e).

Definition bind {A B : Type} (m : M A) (f : A -> M B) : M B :=
  fun c =>
    let o := m c in
    match returned o with
    | Raise e => mk_outcome (cache_after o) (warnings o) (Raise e)
    | Ok a =>
        let o' := f a (cache_after o) in
        mk_outcome (cache_after o') (warnings o ++ warnings o') (returned o')
    end.

Definition lift {A : Type} (r : result A) : M A :=
  fun c => mk_outcome c [] r.

(** [emit_user_level_warning(...)]. *)
Definition emit_user_level_warning (w : warning) : M unit :=
  fun c => mk_outcome c [w] (Ok tt).

Declare Scope py_scope.
Delimit Scope py_scope with py.
Notation "x <- m ;; f" := (bind m (fun x => f))
  (at level 100, m at next level, right associativity) : py_scope.
Notation "m ;;; f" := (bind m (fun _ => f))
  (at level 100, right associativity) : py_scope.
Local Open Scope py_scope.

(** [_get_breaks_cached(size=..., chunk_sizes=..., preferred_chunk_sizes=...)]. *)
Definition _get_breaks_cached (size : Z) (chunk_sizes : list Z)
    (preferred_chunk_sizes : preferred) : M (option Z) :=
  fun c =>
    let k := (size, chunk_sizes, preferred_chunk_sizes) in
    match cache_get k c with
    | Some v => mk_outcome (cache_move_to_front k v c) [] (Ok v)
    | None =>
        match _get_breaks size chunk_sizes preferred_chunk_sizes with
        | Ok v => mk_outcome (cache_store k v c) [] (Ok v)
        | Raise e => mk_outcome c [] (Raise e)
        end
    end.

(** The cache states that can arise: empty at import time and after
    [cache_clear()], then changed by calls only. *)
Inductive reachable : lru -> Prop :=
  | reachable_clear : reachable []
  | reachable_call (c : lru) (size : Z) (chunk_sizes : list Z) (p : preferred) :
      reachable c ->
      reachable (cache_after (_get_breaks_cached size chunk_sizes p c)).

(** ** Values handled by the resolver *)

(** [T_ChunkDim]: what a caller may ask for along one dimension, and what
    is handed to the chunk manager. *)
Inductive T_ChunkDim : Type :=
  | CD_None
  | CD_Int (n : Z)
  | CD_Auto
  | CD_Tuple (t : list Z).

#[global] Instance T_ChunkDim_eq_dec : EqDecision T_ChunkDim.
Proof. solve_decision. Defined.

(** Python truth value: [None], [0] and [()] are false, the string
    ["auto"] is true. *)
Definition truthy (x : T_ChunkDim) : bool :=
  match x with
  | CD_None => false
  | CD_Int n => negb (n =? 0)
  | CD_Auto => true
  | CD_Tuple t => match t with [] => false | _ => true end
  end.

(** [x or y]. *)
Definition py_or (x y : T_ChunkDim) : T_ChunkDim :=
  if truthy x then x else y.

(** A preferred description seen as a candidate for the chunk manager. *)
Definition of_preferred (p : preferred) : T_ChunkDim :=
  match p with
  | PInt n => CD_Int n
  | PTuple t => CD_Tuple t
  end.

(** Truth value of [disagreement : int | None]. *)
Definition truthy_disagreement (d : option Z) : bool :=
  match d with
  | None => false
  | Some n => negb (n =? 0)
  end.

(** The [chunks] argument: a number, the string ["auto"], or a mapping. *)
Inductive chunks_arg : Type :=
  | ChunksNumber (n : Z)
  | ChunksAuto
  | ChunksMapping (m : gmap string T_ChunkDim).

(** [dict.fromkeys(dims, value)]. *)
Definition fromkeys (dims : list string) (value : T_ChunkDim)
  : gmap string T_ChunkDim :=
  foldr (fun dim m => <[dim := value]> m) ∅ dims.

(** [zip(xs, ys, strict=True)] consumed eagerly. *)
Fixpoint zip_strict {A B : Type} (xs : list A) (ys : list B)
  : result (list (A * B)) :=
  match xs, ys with
  | [], [] => Ok []
  | x :: xs', y :: ys' =>
      match zip_strict xs' ys' with
      | Ok l => Ok ((x, y) :: l)
      | Raise e => Raise e
      end
  | _, _ => Raise ValueError
  end.

(** [d[k] = v] on an insertion-ordered dictionary. *)
Fixpoint dict_setitem {V : Type} (d : list (string * V)) (k : string) (v : V)
  : list (string * V) :=
  match d with
  | [] => [(k, v)]
  | (k', v') :: d' =>
      if decide (k = k') then (k, v) :: d' else (k', v') :: dict_setitem d' k v
  end.

(** [dict(pairs)]. *)
Definition dict {V : Type} (pairs : list (string * V)) : list (string * V) :=
  fold_left (fun d kv => dict_setitem d kv.1 kv.2) pairs [].

(** [d.get(k)] on an insertion-ordered dictionary. *)
Fixpoint dict_get {V : Type} (d : list (string * V)) (k : string) : option V :=
  match d with
  | [] => None
  | (k', v) :: d' => if decide (k = k') then Some v else dict_get d' k
  end.

Section Resolver.

(** The element type is only passed on to the chunk manager. *)
Context {dtype : Type}.

(** What [_get_chunk] reads of a [Variable]: whether it is an
    [IndexVariable], [dims], [shape], [dtype], and the entry
    ["preferred_chunks"] of [encoding] when there is one. *)
Record variable : Type := mk_variable {
  is_IndexVariable : bool;
  dims : list string;
  shape : list Z;
  var_dtype : dtype;
  encoding_preferred_chunks : option (gmap string preferred)
}.

(** Modelled from the spec: [Variable.size] is defined outside this file;
    the spec calls it the total element count, the product of the
    lengths in [shape]. *)
Definition var_size (var : variable) : Z := foldr Z.mul 1 (shape var).

(** The interface of a chunk manager that [_get_chunk] uses:
    [normalize_chunks(chunks, shape=, dtype=, previous_chunks=)]. *)
Class ChunkManagerEntrypoint : Type := {
  normalize_chunks :
    list T_ChunkDim -> list Z -> dtype -> list preferred ->
    result (list (list Z))
}.

Context {chunkmanager : ChunkManagerEntrypoint}.

(** [tuple(preferred_chunks.get(dim, size) for dim, size in zip(dims, shape, strict=True))]. *)
Definition preferred_chunk_shape_of (preferred_chunks : gmap string preferred)
    (dims : list string) (shape : list Z) : result (list preferred) :=
  match zip_strict dims shape with
  | Raise e => Raise e
  | Ok zs =>
      Ok (map (fun ds => default (PInt ds.2) (preferred_chunks !! ds.1)) zs)
  end.

(** [chunks = dict.fromkeys(dims, chunks)] when [chunks] is a number or
    ["auto"]. *)
Definition chunks_mapping (dims : list string) (chunks : chunks_arg)
  : gmap string T_ChunkDim :=
  match chunks with
  | ChunksNumber n => fromkeys dims (CD_Int n)
  | ChunksAuto => fromkeys dims CD_Auto
  | ChunksMapping m => m
  end.

(** [tuple(chunks.get(dim, None) or preferred_chunk_sizes for dim, preferred_chunk_sizes in zip(dims, preferred_chunk_shape, strict=True))]:
    the candidates handed to the chunk manager. *)
Definition candidate_chunk_shape (chunks : gmap string T_ChunkDim)
    (dims : list string) (preferred_chunk_shape : list preferred)
  : result (list T_ChunkDim) :=
  match zip_strict dims preferred_chunk_shape with
  | Raise e => Raise e
  | Ok zs =>
      Ok (map (fun dp =>
                 py_or (default CD_None (chunks !! dp.1)) (of_preferred dp.2))
            zs)
  end.

(** The body of the loop over the dimensions: [continue] on [KeyError],
    otherwise ask the detector and warn when [disagreement] is true.
    The integer interpolated in the message is [disagreement] itself,
    which is not [None] when it is true. *)
Definition warn_break (preferred_chunks : gmap string preferred)
    (dim : string) (size : Z) (chunk_sizes : list Z) : M unit :=
  match preferred_chunks !! dim with
  | None => ret tt
  | Some preferred_chunk_sizes =>
      disagreement <-
        _get_breaks_cached size chunk_sizes preferred_chunk_sizes ;;
      if truthy_disagreement disagreement
      then emit_user_level_warning (dim, default 0 disagreement)
      else ret tt
  end.

(** The loop [for dim, size, chunk_sizes in zip(dims, shape, chunk_shape, strict=True)].
    The zip is consumed as the loop runs: warnings of earlier dimensions
    are emitted before a length mismatch is found. *)
Fixpoint warn_breaks (preferred_chunks : gmap string preferred)
    (dims : list string) (shape : list Z) (chunk_shape : list (list Z))
  : M unit :=
  match dims, shape, chunk_shape with
  | [], [], [] => ret tt
  | dim :: dims', size :: shape', chunk_sizes :: chunk_shape' =>
      warn_break preferred_chunks dim size chunk_sizes ;;;
      warn_breaks preferred_chunks dims' shape' chunk_shape'
  | _, _, _ => raise ValueError
  end.

Definition _get_chunk (var : variable) (chunks : chunks_arg)
  : M (list (string * list Z)) :=
  if is_IndexVariable var then ret []
  else
    let dims := dims var in
    let shape := shape var in
    let preferred_chunks := default ∅ (encoding_preferred_chunks var) in
    preferred_chunk_shape <-
      lift (preferred_chunk_shape_of preferred_chunks dims shape) ;;
    let chunks := chunks_mapping dims chunks in
    chunk_shape <-
      lift (candidate_chunk_shape chunks dims preferred_chunk_shape) ;;
    chunk_shape <-
      lift (normalize_chunks chunk_shape shape (var_dtype var)
              preferred_chunk_shape) ;;
    (if negb (var_size var =? 0)
     then warn_breaks preferred_chunks dims shape chunk_shape
     else ret tt) ;;;
    pairs <- lift (zip_strict dims chunk_shape) ;;
    ret (dict pairs).

(** The part of [_get_chunk] before the warnings, on its own: the chunk
    shape that the chunk manager returns for the candidates.  No effect
    takes place there. *)
Definition normalized_chunk_shape (var : variable) (chunks : chunks_arg)
  : result (list (list Z)) :=
  let preferred_chunks := default ∅ (encoding_preferred_chunks var) in
  match preferred_chunk_shape_of preferred_chunks (dims var) (shape var) with
  | Raise e => Raise e
  | Ok preferred_chunk_shape =>
      match candidate_chunk_shape (chunks_mapping (dims var) chunks)
              (dims var) preferred_chunk_shape with
      | Raise e => Raise e
      | Ok chunk_shape =>
          normalize_chunks chunk_shape (shape var) (var_dtype var)
            preferred_chunk_shape
      end
  end.

End Resolver.

(** A computation is transparent when it keeps the cache among the
    reachable states and neither what it returns nor the warnings it emits
    depend on which reachable state it starts from. *)
Definition transparent {A : Type} (m : M A) : Prop :=
  forall c,
    reachable c ->
    reachable (cache_after (m c))
    /\ forall c',
        reachable c' ->
        warnings (m c) = warnings (m c') /\ returned (m c) = returned (m c').

Arguments variable dtype : clear implicits.
Arguments ChunkManagerEntrypoint dtype : clear implicits.

(** ** The vocabulary of the specification

    These definitions follow the words of the specification, not the code;
    the theorems below relate the code to them. *)

Definition sum_Z (l : list Z) : Z := foldr Z.add 0 l.

(** A partition of [size]: positive lengths that sum to [size]. *)
Definition is_partition (size : Z) (l : list Z) : Prop :=
  Forall (fun x => 0 < x) l /\ sum_Z l = size.

(** The running cumulative sums of [l] excluding the final one: the sums
    of the first [k] elements, for [k] from 1 to [length l - 1]. *)
Definition interior_sums (l : list Z) : list Z :=
  map (fun k => sum_Z (take k l)) (seq 1 (length l - 1)%nat).

(** The preferred boundary offsets: for a uniform length [p] the multiples
    of [p] strictly between 0 and [size]; for a sequence the running
    cumulative sums of all but its last element. *)
Definition preferred_boundary (size : Z) (p : preferred) (a : Z) : Prop :=
  match p with
  | PInt p => 0 < a < size /\ (p | a)
  | PTuple l => a ∈ interior_sums l
  end.

(** [r] is the first element of [sums] that is not a boundary, and none
    when every element is one. *)
Definition first_not_boundary (boundary : Z -> Prop) (sums : list Z)
    (r : option Z) : Prop :=
  match r with
  | Some a =>
      exists before after,
        sums = before ++ a :: after /\ Forall boundary before /\ ~ boundary a
  | None => Forall boundary sums
  end.

(** A preferred description as the specification admits it: a partition
    of [size], or a positive uniform length. *)
Definition valid_preferred (size : Z) (p : preferred) : Prop :=
  match p with
  | PInt p => 0 < p
  | PTuple l => is_partition size l
  end.

(** The sequence that a uniform length [p] stands for: [p] repeated until
    [size] is reached, with a shorter final chunk when [p] does not divide
    [size]. *)
Definition uniform_partition (p size : Z) : list Z :=
  replicate (Z.to_nat (size / p)) p
    ++ (if size mod p =? 0 then [] else [size mod p]).

(** A recorded preferred partition that does not sum to the size of its
    dimension. *)
Definition preferred_mismatch {dtype : Type} (var : variable dtype) : Prop :=
  exists (i : nat) (dim : string) (size : Z) (l : list Z),
    dims var !! i = Some dim
    /\ shape var !! i = Some size
    /\ default ∅ (encoding_preferred_chunks var) !! dim = Some (PTuple l)
    /\ sum_Z l <> size.

(** Every entry of the cache holds what the function returns on its key. *)
Definition cache_consistent (c : lru) : Prop :=
  forall size chunk_sizes p v,
    cache_get (size, chunk_sizes, p) c = Some v ->
    _get_breaks size chunk_sizes p = Ok v.

(** ** A chunk manager for the examples

    A deterministic stand-in for a real chunk manager: a positive integer
    is repeated along the dimension, a tuple is accepted when it adds up to
    the dimension, ["auto"] takes the dimension whole. *)
Definition normalize_dim (c : T_ChunkDim) (size : Z) : result (list Z) :=
  match c with
  | CD_Int n =>
      if size =? 0 then Ok [0]
      else if 0 <? n then Ok (uniform_partition n size)
      else Raise (ChunkManagerError "chunk length must be positive")
  | CD_Tuple t =>
      if sum_Z t =? size then Ok t
      else Raise (ChunkManagerError "chunks do not add up to shape")
  | CD_Auto | CD_None => Ok [size]
  end.

Fixpoint normalize_dims (cs : list T_ChunkDim) (shape : list Z)
  : result (list (list Z)) :=
  match cs, shape with
  | [], [] => Ok []
  | c :: cs', size :: shape' =>
      match normalize_dim c size with
      | Raise e => Raise e
      | Ok x =>
          match normalize_dims cs' shape' with
          | Raise e => Raise e
          | Ok xs => Ok (x :: xs)
          end
      end
  | _, _ => Raise (ChunkManagerError "chunks and shape differ in length")
  end.

#[global] Instance example_chunkmanager : ChunkManagerEntrypoint unit :=
  {| normalize_chunks cs shape _ _ := normalize_dims cs shape |}.

(** A chunk manager that breaks its contract: whatever it is asked, it
    answers one dimension cut into two chunks of length 3. *)
Definition careless_chunkmanager : ChunkManagerEntrypoint unit :=
  {| normalize_chunks _ _ _ _ := Ok [[3; 3]] |}.

(** Variables for the examples. *)
Definition example_var (is_index : bool) (dims : list string) (shape : list Z)
    (preferred_chunks : option (gmap string preferred)) : variable unit :=
  {| is_IndexVariable := is_index;
     dims := dims;
     shape := shape;
     var_dtype := tt;
     encoding_preferred_chunks := preferred_chunks |}.

(** One dimension ["x"] of size 10, stored in chunks of 4 and 6. *)
Definition var_stored_4_6 : variable unit :=
  example_var false ["x"%string] [10] (Some {["x"%string := PTuple [4; 6]]}).

(** The same, with a recorded preferred partition [4, 4] that does not add
    up to the size. *)
Definition var_stored_4_4 : variable unit :=
  example_var false ["x"%string] [10] (Some {["x"%string := PTuple [4; 4]]}).

(** One dimension ["x"] of size 10 and no recorded preference. *)
Definition var_plain : variable unit :=
  example_var false ["x"%string] [10] None.

(** Two dimensions, the second of size 0: no element at all. *)
Definition var_empty : variable unit :=
  example_var false ["x"%string; "y"%string] [10; 0]
    (Some {["x"%string := PTuple [4; 6]]}).

(** An index variable. *)
Definition var_index : variable unit :=
  example_var true ["x"%string] [10] (Some {["x"%string := PInt 4]}).

(** Two dimension names for a shape of length one. *)
Definition var_ragged : variable unit :=
  example_var false ["x"%string; "y"%string] [10] None.

(** The request [{"x": 5}]. *)
Definition request_x_5 : chunks_arg :=
  ChunksMapping {["x"%string := CD_Int 5]}.

(** The request [{"x": 0}]. *)
Definition request_x_0 : chunks_arg :=
  ChunksMapping {["x"%string := CD_Int 0]}.

(** ** [_maybe_chunk] *)

(** The items of [{dim: chunks[dim] for dim in var.dims if dim in chunks}],
    in the order in which the comprehension produces them. *)
Fixpoint chunks_items (dims : list string) (chunks : gmap string T_ChunkDim)
  : list (string * T_ChunkDim) :=
  match dims with
  | [] => []
  | dim :: dims' =>
      match chunks !! dim with
      | Some v => (dim, v) :: chunks_items dims' chunks
      | None => chunks_items dims' chunks
      end
  end.

(** The dictionary that the comprehension builds. *)
Definition restrict_chunks (dims : list string)
    (chunks : gmap string T_ChunkDim) : list (string * T_ChunkDim) :=
  dict (chunks_items dims chunks).

(** What [_maybe_chunk] can raise: [IndexError] from [x[0]] on an empty
    tuple, and whatever the functions that it calls raise. *)
Inductive error : Type :=
  | IndexError
  | External (e : exception).

Inductive attempt (A : Type) : Type :=
  | Done (a : A)
  | Failed (e : error).
Arguments Done {A} a.
Arguments Failed {A} e.

(** [tuple(x[0] for x in var.chunks)]. *)
Fixpoint first_of_each (chunks : list (list Z)) : attempt (list Z) :=
  match chunks with
  | [] => Done []
  | x :: chunks' =>
      match x with
      | [] => Failed IndexError
      | x0 :: _ =>
          match first_of_each chunks' with
          | Done t => Done (x0 :: t)
          | Failed e => Failed e
          end
      end
  end.

Section MaybeChunk.

Context {dtype Data Token Lock Kwargs Manager : Type}.

(** What [_maybe_chunk] reads and writes of a [Variable]: besides what
    [_get_chunk] reads, the attributes [ndim], [_data] and [chunks], and
    the entry ["chunks"] of [encoding]. *)
Record chunkable : Type := mk_chunkable {
  var_of : variable dtype;
  ndim : nat;
  _data : Data;
  chunks_of : option (list (list Z));
  encoding_chunks : option (list Z)
}.

(** [var.encoding["chunks"] = t]. *)
Definition set_encoding_chunks (var : chunkable) (t : list Z) : chunkable :=
  {| var_of := var_of var;
     ndim := ndim var;
     _data := _data var;
     chunks_of := chunks_of var;
     encoding_chunks := Some t |}.

(** The argument [chunked_array_type : str | ChunkManagerEntrypoint | None]. *)
Inductive chunked_array_type_arg : Type :=
  | ManagerDefault
  | ManagerNamed (name : string)
  | ManagerGiven (m : Manager).

(** The functions defined elsewhere that [_maybe_chunk] calls:
    [guess_chunkmanager], [isinstance(_, DaskManager)], [bool(token)],
    [dask.base.tokenize], [str(chunks)],
    [utils.consolidate_dask_from_array_kwargs] and [Variable.chunk]. *)
Class Collaborators : Type := {
  guess_chunkmanager : chunked_array_type_arg -> result Manager;
  is_DaskManager : Manager -> bool;
  token_truthy : Token -> bool;
  tokenize : Token + Data -> string -> string;
  str_of_chunks : option (list (string * T_ChunkDim)) -> string;
  consolidate_dask_from_array_kwargs :
    option Kwargs -> string -> option Lock -> bool -> result Kwargs;
  chunk :
    chunkable -> option (list (string * T_ChunkDim)) -> Manager ->
    option Kwargs -> result chunkable
}.

Context {collaborators : Collaborators}.

(** [token if token else var._data]. *)
Definition token_or_data (token : option Token) (var : chunkable)
  : Token + Data :=
  match token with
  | Some t => if token_truthy t then inl t else inr (_data var)
  | None => inr (_data var)
  end.

(** The branch [if isinstance(chunked_array_type, DaskManager)]: the
    keyword arguments handed to [var.chunk]. *)
Definition dask_from_array_kwargs (name : string) (var : chunkable)
    (chunks : option (list (string * T_ChunkDim))) (token : option Token)
    (lock : option Lock) (name_prefix : string) (inline_array : bool)
    (chunked_array_type : Manager) (from_array_kwargs : option Kwargs)
  : result (option Kwargs) :=
  if is_DaskManager chunked_array_type then
    let token2 := tokenize (token_or_data token var) (str_of_chunks chunks) in
    let name2 :=
      String.append name_prefix
        (String.append name (String.append "-" token2)) in
    match consolidate_dask_from_array_kwargs from_array_kwargs name2 lock
            inline_array with
    | Ok kwargs => Ok (Some kwargs)
    | Raise e => Raise e
    end
  else Ok from_array_kwargs.

(** [name] stands for its rendering in the formatted string.  The entry
    ["chunks"] is written to the encoding of the variable that
    [var.chunk] returned; whether the variable passed in shares that
    encoding is decided by [Variable.chunk], and the model says what the
    variable returned holds. *)
Definition _maybe_chunk (name : string) (var : chunkable)
    (chunks : option (gmap string T_ChunkDim)) (token : option Token)
    (lock : option Lock) (name_prefix : string)
    (overwrite_encoded_chunks : bool) (inline_array : bool)
    (chunked_array_type : chunked_array_type_arg)
    (from_array_kwargs : option Kwargs) : attempt chunkable :=
  let chunks :=
    match chunks with
    | Some chunks => Some (restrict_chunks (dims (var_of var)) chunks)
    | None => None
    end in
  if negb (Nat.eqb (ndim var) 0) then
    match guess_chunkmanager chunked_array_type with
    | Raise e => Failed (External e)
    | Ok chunked_array_type =>
        match dask_from_array_kwargs name var chunks token lock name_prefix
                inline_array chunked_array_type from_array_kwargs with
        | Raise e => Failed (External e)
        | Ok from_array_kwargs =>
            match chunk var chunks chunked_array_type from_array_kwargs with
            | Raise e => Failed (External e)
            | Ok var =>
                match (if overwrite_encoded_chunks then chunks_of var
                       else None) with
                | Some var_chunks =>
                    match first_of_each var_chunks with
                    | Done t => Done (set_encoding_chunks var t)
                    | Failed e => Failed e
                    end
                | None => Done var
                end
            end
        end
    end
  else Done var.

End MaybeChunk.

Arguments chunkable dtype Data : clear implicits.
Arguments chunked_array_type_arg Manager : clear implicits.
Arguments Collaborators dtype Data Token Lock Kwargs Manager : clear implicits.

(** The requested value that counts along a dimension: the value in the
    request when there is one and it is true, nothing otherwise. *)
Definition effective_request (chunks : gmap string T_ChunkDim) (dim : string)
  : option T_ChunkDim :=
  match chunks !! dim with
  | Some v => if truthy v then Some v else None
  | None => None
  end.

(** Collaborators for the examples: one chunk manager per name, which is
    dask's when [is_dask] says so; [Variable.chunk] cuts every dimension
    with [normalize_dims] on what is requested, a dimension that is not
    requested being taken whole. *)
Definition example_chunk (var : chunkable unit unit)
    (chunks : option (list (string * T_ChunkDim)))
  : result (chunkable unit unit) :=
  match normalize_dims
          (map (fun dim =>
                  default CD_None (dict_get (default [] chunks) dim))
             (dims (var_of var)))
          (shape (var_of var)) with
  | Ok cs => Ok (mk_chunkable (var_of var) (ndim var) (_data var) (Some cs)
                   (encoding_chunks var))
  | Raise e => Raise e
  end.

Definition example_collaborators (is_dask : bool)
  : Collaborators unit unit string unit string unit :=
  {| guess_chunkmanager _ := Ok tt;
     is_DaskManager _ := is_dask;
     token_truthy t := negb (String.eqb t "");
     tokenize td _ := match td with inl t => t | inr _ => "data"%string end;
     str_of_chunks _ := ""%string;
     consolidate_dask_from_array_kwargs _ name _ _ := Ok name;
     chunk var chunks _ _ := example_chunk var chunks |}.

(** The variable [var_stored_4_6] as [_maybe_chunk] sees it, not chunked
    yet. *)
Definition array_stored_4_6 : chunkable unit unit :=
  mk_chunkable var_stored_4_6 1 tt None None.

(** A variable without dimensions. *)
Definition array_scalar : chunkable unit unit :=
  mk_chunkable (example_var false [] [] None) 0 tt None None.

(** * Properties *)

(** ** Arithmetic of running sums *)

Lemma sum_Z_app (l1 l2 : list Z) : sum_Z (l1 ++ l2) = sum_Z l1 + sum_Z l2.
Proof. induction l1 as [|x l1 IH]; simpl; [reflexivity | rewrite IH; lia]. Qed.

Lemma sum_Z_replicate (n : nat) (p : Z) : sum_Z (replicate n p) = Z.of_nat n * p.
Proof. induction n as [|n IH]; simpl; [reflexivity | rewrite IH; lia]. Qed.

Lemma sum_Z_pos (l : list Z) :
  Forall (fun x => 0 < x) l -> l <> [] -> 0 < sum_Z l.
Proof.
  induction 1 as [|x l Hx Hl IH]; [congruence | intros _; simpl].
  destruct l as [|y l]; [simpl; lia |].
  assert (0 < sum_Z (y :: l)) by (apply IH; congruence). lia.
Qed.

Lemma accumulate_from_sums (total : Z) (t : list Z) :
  accumulate_from total t
  = map (fun k => total + sum_Z (take k t)) (seq 1 (length t)).
Proof.
  revert total; induction t as [|x t IH]; intros total; [reflexivity |].
  simpl. f_equal; [lia |].
  rewrite IH, <- (seq_shift (length t) 1), map_map.
  apply map_ext; intros k; simpl; lia.
Qed.

Lemma accumulate_sums (t : list Z) :
  accumulate t = map (fun k => sum_Z (take k t)) (seq 1 (length t)).
Proof.
  destruct t as [|x t]; [reflexivity |].
  simpl. f_equal; [lia |].
  rewrite accumulate_from_sums, <- (seq_shift (length t) 1), map_map.
  apply map_ext; intros k; simpl; lia.
Qed.

(** The stops that the code computes are the interior running sums. *)
Lemma accumulate_drop_last (t : list Z) :
  accumulate (drop_last t) = interior_sums t.
Proof.
  unfold drop_last, interior_sums.
  rewrite accumulate_sums, removelast_firstn_len.
  rewrite length_take.
  replace (pred (length t) `min` length t)%nat with (length t - 1)%nat by lia.
  apply map_ext_in; intros k Hk. apply in_seq in Hk.
  rewrite take_take. f_equal. f_equal. lia.
Qed.

Lemma elem_interior_sums (l : list Z) (a : Z) :
  a ∈ interior_sums l
  <-> exists k : nat, (1 <= k < length l)%nat /\ a = sum_Z (take k l).
Proof.
  unfold interior_sums. rewrite list_elem_of_In, in_map_iff. split.
  - intros (k & <- & Hk). apply in_seq in Hk. exists k. split; [lia | reflexivity].
  - intros (k & Hk & ->). exists k. split; [reflexivity |]. apply in_seq. lia.
Qed.

(** In a partition every interior running sum lies strictly between 0 and
    the size. *)
Lemma interior_sums_bounds (size : Z) (l : list Z) (a : Z) :
  is_partition size l -> a ∈ interior_sums l -> 0 < a < size.
Proof.
  intros [Hpos Hsum] Ha. apply elem_interior_sums in Ha as (k & Hk & ->).
  assert (sum_Z l = sum_Z (take k l) + sum_Z (drop k l)) as Esum
    by (by rewrite <- sum_Z_app, take_drop).
  rewrite <- Hsum, Esum.
  assert (0 < sum_Z (take k l)).
  { apply sum_Z_pos; [by apply Forall_take |].
    intros E. apply (f_equal length) in E. rewrite length_take in E.
    simpl in E. lia. }
  assert (0 < sum_Z (drop k l)).
  { apply sum_Z_pos; [by apply Forall_drop |].
    intros E. apply (f_equal length) in E. rewrite length_drop in E.
    simpl in E. lia. }
  lia.
Qed.

(** ** The detector returns the first stop that is not preferred *)

Lemma next_compress_first {A : Type} (g : A -> bool) (xs : list A) :
  match next_or_None (compress xs (map g xs)) with
  | Some a =>
      exists before after,
        xs = before ++ a :: after
        /\ Forall (fun x => g x = false) before /\ g a = true
  | None => Forall (fun x => g x = false) xs
  end.
Proof.
  induction xs as [|x xs IH]; simpl; [constructor |].
  destruct (g x) eqn:Hx; simpl.
  - exists [], xs. repeat split; [constructor | exact Hx].
  - destruct (next_or_None (compress xs (map g xs))) as [a|].
    + destruct IH as (before & after & -> & Hb & Ha).
      exists (x :: before), after. repeat split; [by constructor | exact Ha].
    + by constructor.
Qed.

Lemma get_breaks_unfold (size : Z) (cs : list Z) (p : preferred) :
  _get_breaks size cs p
  = if decide (p = PInt 1) then Ok None
    else match preferred_stops_of size p with
         | Raise e => Raise e
         | Ok ps =>
             Ok (next_or_None
                   (compress (accumulate (drop_last cs))
                      (map (fun a => negb (stops_contains ps a))
                         (accumulate (drop_last cs)))))
         end.
Proof. destruct p as [[|[?|?|]|]|]; reflexivity. Qed.

(** Whatever the preferred stops are, the value returned is the first
    interior running sum of [chunk_sizes] that they do not contain. *)
Lemma get_breaks_first (size : Z) (cs : list Z) (p : preferred) (ps : stops)
    (boundary : Z -> Prop) :
  p <> PInt 1 ->
  preferred_stops_of size p = Ok ps ->
  (forall a, a ∈ interior_sums cs -> stops_contains ps a = true <-> boundary a) ->
  exists r,
    _get_breaks size cs p = Ok r
    /\ first_not_boundary boundary (interior_sums cs) r.
Proof.
  intros Hp Hps Hb. rewrite get_breaks_unfold, decide_False, Hps by exact Hp.
  eexists; split; [reflexivity |].
  rewrite accumulate_drop_last.
  pose proof (next_compress_first (fun a => negb (stops_contains ps a))
                (interior_sums cs)) as H.
  destruct (next_or_None _) as [a|]; simpl.
  - destruct H as (before & after & E & Hbefore & Ha).
    exists before, after. split; [exact E |]. split.
    + apply List.Forall_forall. intros x Hx.
      apply Hb.
      * rewrite E. apply list_elem_of_In, in_or_app. by left.
      * eapply List.Forall_forall in Hbefore; [|exact Hx].
        by apply negb_false_iff.
    + intros Hba. apply Hb in Hba.
      * rewrite Hba in Ha. discriminate.
      * rewrite E. apply list_elem_of_In, in_or_app. right. by left.
  - apply List.Forall_forall. intros x Hx.
    apply Hb; [by apply list_elem_of_In |].
    eapply List.Forall_forall in H; [|exact Hx]. by apply negb_false_iff.
Qed.

(** Membership in [range(p, size, p)] for a positive step. *)
Lemma range_contains_multiples (p size a : Z) :
  0 < p ->
  range_contains (mk_range p size p) a = true <-> 0 < a < size /\ (p | a).
Proof.
  intros Hp. unfold range_contains; simpl.
  replace (0 <? p) with true by (symmetry; by apply Z.ltb_lt).
  rewrite !andb_true_iff, Z.leb_le, Z.ltb_lt, Z.eqb_eq.
  rewrite Z.mod_divide by lia. split.
  - intros [[H1 H2] [k Hk]]. split; [lia |]. exists (k + 1). lia.
  - intros [[H1 H2] [k Hk]].
    assert (1 <= k) by (destruct (Z_lt_le_dec k 1); [nia | lia]).
    split; [split; [nia | lia] |].
    exists (k - 1). lia.
Qed.

Lemma preferred_stops_boundary (size : Z) (p : preferred) (ps : stops) (a : Z) :
  valid_preferred size p ->
  preferred_stops_of size p = Ok ps ->
  stops_contains ps a = true <-> preferred_boundary size p a.
Proof.
  destruct p as [p|l]; simpl; intros Hv Hps.
  - unfold range_new in Hps.
    destruct (p =? 0) eqn:E; [apply Z.eqb_eq in E; lia |].
    injection Hps as <-. simpl. by apply range_contains_multiples.
  - injection Hps as <-. simpl.
    rewrite bool_decide_eq_true, elem_of_list_to_set, accumulate_drop_last.
    reflexivity.
Qed.

Lemma preferred_stops_valid (size : Z) (p : preferred) :
  valid_preferred size p -> exists ps, preferred_stops_of size p = Ok ps.
Proof.
  destruct p as [p|l]; simpl; intros Hv; [|eauto].
  unfold range_new. destruct (p =? 0) eqn:E; [apply Z.eqb_eq in E; lia | eauto].
Qed.

(** An offset that is returned is one of the interior running sums of
    [chunk_sizes], whatever the preferred description. *)
Lemma get_breaks_Some_elem (size : Z) (cs : list Z) (p : preferred) (a : Z) :
  _get_breaks size cs p = Ok (Some a) -> a ∈ interior_sums cs.
Proof.
  rewrite get_breaks_unfold. case_decide; [discriminate |].
  destruct (preferred_stops_of size p) as [ps|e]; [|discriminate].
  rewrite accumulate_drop_last. intros E. injection E as E.
  pose proof (next_compress_first (fun a => negb (stops_contains ps a))
                (interior_sums cs)) as Hfirst.
  rewrite E in Hfirst. destruct Hfirst as (before & after & -> & _).
  apply list_elem_of_In, in_or_app. right. by left.
Qed.

(** "The first" names one value: two results that both satisfy
    [first_not_boundary] are equal. *)
Lemma first_not_boundary_unique (boundary : Z -> Prop) (sums : list Z)
    (r1 r2 : option Z) :
  first_not_boundary boundary sums r1 ->
  first_not_boundary boundary sums r2 ->
  r1 = r2.
Proof.
  assert (forall a before after,
            Forall boundary (before ++ a :: after) -> ~ boundary a -> False)
    as Hin.
  { intros a before after H Ha. apply Forall_app in H as [_ H].
    apply Forall_cons in H as [H _]. by apply Ha. }
  destruct r1 as [a|], r2 as [b|]; simpl; try reflexivity.
  - intros (b1 & a1 & -> & Hb1 & Ha) (b2 & a2 & E & Hb2 & Hb).
    revert b2 E Hb2. induction Hb1 as [|x b1 Hx Hb1 IH]; intros b2 E Hb2.
    + destruct b2 as [|y b2]; simpl in E; [congruence |].
      injection E as -> _. apply Forall_cons in Hb2 as [Hy _]. by destruct Ha.
    + destruct b2 as [|y b2]; simpl in E.
      * injection E as <- _. by destruct Hb.
      * injection E as -> E. apply Forall_cons in Hb2 as [_ Hb2]. eauto.
  - intros (b1 & a1 & -> & _ & Ha) H. destruct (Hin _ _ _ H Ha).
  - intros H (b2 & a2 & -> & _ & Hb). destruct (Hin _ _ _ H Hb).
Qed.

(** ** The cache is transparent *)

Lemma cache_get_unlink (k k' : key) (c : lru) :
  cache_get k (cache_unlink k' c)
  = if decide (k = k') then None else cache_get k c.
Proof.
  induction c as [|[k0 v0] c IH]; simpl; [by case_decide |].
  repeat (case_decide; simpl); congruence.
Qed.

Lemma cache_get_take (n : nat) (k : key) (c : lru) (v : option Z) :
  cache_get k (take n c) = Some v -> cache_get k c = Some v.
Proof.
  revert n; induction c as [|[k0 v0] c IH]; intros [|n]; simpl; try discriminate.
  case_decide; eauto.
Qed.

Lemma cached_returned (size : Z) (cs : list Z) (p : preferred) (c : lru) :
  cache_consistent c ->
  returned (_get_breaks_cached size cs p c) = _get_breaks size cs p.
Proof.
  intros Hc. unfold _get_breaks_cached.
  destruct (cache_get (size, cs, p) c) as [v|] eqn:E; simpl.
  - symmetry. by apply Hc.
  - by destruct (_get_breaks size cs p).
Qed.

Lemma cached_consistent (size : Z) (cs : list Z) (p : preferred) (c : lru) :
  cache_consistent c ->
  cache_consistent (cache_after (_get_breaks_cached size cs p c)).
Proof.
  intros Hc. unfold _get_breaks_cached.
  destruct (cache_get (size, cs, p) c) as [v|] eqn:E; simpl.
  - intros size' cs' p' v'. unfold cache_move_to_front. simpl.
    case_decide as Hk.
    + injection Hk as -> -> ->. intros [= <-]. by apply Hc.
    + rewrite cache_get_unlink, decide_False by exact Hk. apply Hc.
  - destruct (_get_breaks size cs p) as [v|e] eqn:Hb; simpl; [|exact Hc].
    intros size' cs' p' v' Hget. unfold cache_store in Hget.
    apply cache_get_take in Hget. simpl in Hget.
    case_decide as Hk.
    + injection Hk as -> -> ->. by injection Hget as <-.
    + by apply Hc.
Qed.

Lemma cached_warnings (size : Z) (cs : list Z) (p : preferred) (c : lru) :
  warnings (_get_breaks_cached size cs p c) = [].
Proof.
  unfold _get_breaks_cached.
  destruct (cache_get (size, cs, p) c); [reflexivity |].
  by destruct (_get_breaks size cs p).
Qed.

Lemma reachable_consistent (c : lru) : reachable c -> cache_consistent c.
Proof.
  induction 1 as [|c size cs p _ IH].
  - intros size cs p v; discriminate.
  - by apply cached_consistent.
Qed.

(** The cache never holds more than [maxsize] entries. *)
Lemma cache_unlink_length (k : key) (c : lru) :
  (length (cache_unlink k c) <= length c)%nat.
Proof.
  induction c as [|[k0 v0] c IH]; simpl; [lia |]. case_decide; simpl; lia.
Qed.

Lemma cache_get_unlink_length (k : key) (c : lru) (v : option Z) :
  cache_get k c = Some v -> (length (cache_unlink k c) < length c)%nat.
Proof.
  induction c as [|[k0 v0] c IH]; simpl; [discriminate |].
  case_decide; simpl.
  - intros _. pose proof (cache_unlink_length k c). lia.
  - intros Hget. apply IH in Hget. lia.
Qed.

Lemma reachable_bounded (c : lru) : reachable c -> (length c <= maxsize)%nat.
Proof.
  induction 1 as [|c size cs p _ IH]; [unfold maxsize; simpl; lia |].
  unfold _get_breaks_cached.
  destruct (cache_get (size, cs, p) c) as [v|] eqn:E.
  - unfold cache_move_to_front; cbn [cache_after length].
    apply cache_get_unlink_length in E. lia.
  - destruct (_get_breaks size cs p); cbn [cache_after]; [|exact IH].
    unfold cache_store. rewrite length_take. lia.
Qed.

(** ** A uniform length and the sequence it stands for *)

Lemma uniform_partition_length (p size : Z) :
  length (uniform_partition p size)
  = (Z.to_nat (size / p)%Z + (if (size mod p =? 0)%Z then 0 else 1))%nat.
Proof.
  unfold uniform_partition. rewrite length_app, length_replicate.
  by destruct (size mod p =? 0).
Qed.

Lemma uniform_partition_take (p size : Z) (k : nat) :
  (k < length (uniform_partition p size))%nat ->
  sum_Z (take k (uniform_partition p size)) = Z.of_nat k * p.
Proof.
  rewrite uniform_partition_length. intros Hk. unfold uniform_partition.
  rewrite take_app_le by (rewrite length_replicate; destruct (_ =? _); lia).
  rewrite take_replicate, sum_Z_replicate.
  replace (k `min` Z.to_nat (size / p))%nat with k
    by (destruct (_ =? _); lia).
  reflexivity.
Qed.

(** The boundaries of the sequence are the multiples of [p] strictly
    between 0 and [size]. *)
Lemma interior_sums_uniform (p size a : Z) :
  0 < p ->
  a ∈ interior_sums (uniform_partition p size) <-> 0 < a < size /\ (p | a).
Proof.
  intros Hp. rewrite elem_interior_sums.
  pose proof (Z.div_mod size p ltac:(lia)) as Hdm.
  pose proof (Z.mod_pos_bound size p Hp) as Hr.
  split.
  - intros (k & Hk & ->).
    rewrite uniform_partition_take by lia.
    rewrite uniform_partition_length in Hk.
    assert (0 < size / p) as Hq by (destruct (_ =? _); lia).
    split; [|by exists (Z.of_nat k)].
    destruct (size mod p =? 0) eqn:E.
    + apply Z.eqb_eq in E. nia.
    + apply Z.eqb_neq in E. nia.
  - intros [[Ha Hsize] [k' ->]].
    assert (1 <= k') by (destruct (Z_lt_le_dec k' 1); [nia | lia]).
    assert (0 <= size / p) as Hq by (apply Z.div_pos; lia).
    assert ((Z.to_nat k' < length (uniform_partition p size))%nat) as Hlen.
    { rewrite uniform_partition_length.
      destruct (size mod p =? 0) eqn:E.
      - apply Z.eqb_eq in E. assert (k' < size / p) by nia. lia.
      - assert (k' < size / p + 1) by nia. lia. }
    exists (Z.to_nat k'). split; [lia |].
    rewrite uniform_partition_take by exact Hlen. lia.
Qed.

(** For a uniform length other than 1 the two descriptions give the same
    result on every [size] and every [chunk_sizes]. *)
Lemma get_breaks_uniform_tuple (size : Z) (cs : list Z) (p : Z) :
  0 < p -> p <> 1 ->
  _get_breaks size cs (PInt p)
  = _get_breaks size cs (PTuple (uniform_partition p size)).
Proof.
  intros Hp Hp1. rewrite !get_breaks_unfold.
  rewrite !decide_False by congruence. simpl.
  unfold range_new. destruct (p =? 0) eqn:E; [apply Z.eqb_eq in E; lia |].
  do 3 f_equal. apply map_ext. intros a. f_equal. simpl.
  apply eq_true_iff_eq.
  rewrite range_contains_multiples by exact Hp.
  rewrite bool_decide_eq_true, elem_of_list_to_set, accumulate_drop_last.
  by rewrite interior_sums_uniform.
Qed.

(** For the uniform length 1 the sequence is all ones; on a partition of
    [size] every interior stop is one of its boundaries. *)
Lemma get_breaks_ones (size : Z) (cs : list Z) :
  is_partition size cs ->
  _get_breaks size cs (PTuple (uniform_partition 1 size)) = Ok None.
Proof.
  intros Hpart.
  destruct (get_breaks_first size cs (PTuple (uniform_partition 1 size))
              (StopsSet (list_to_set
                           (accumulate (drop_last (uniform_partition 1 size)))))
              (fun a => 0 < a < size /\ (1 | a)))
    as (r & -> & Hr); [discriminate | reflexivity | |].
  - intros a _. simpl.
    rewrite bool_decide_eq_true, elem_of_list_to_set, accumulate_drop_last.
    by apply interior_sums_uniform.
  - f_equal. eapply first_not_boundary_unique; [exact Hr |]. simpl.
    apply List.Forall_forall. intros a Ha. apply list_elem_of_In in Ha.
    split; [by eapply interior_sums_bounds | apply Z.divide_1_l].
Qed.

(** ** Theorems on the detector *)

(** C1: for every size > 0, every partition [chunk_sizes] of [size] and
    every preferred description that is a partition of [size] or a
    positive integer, the detector returns the first running cumulative
    sum of [chunk_sizes], the final one excluded, that is not a preferred
    boundary offset, and none when every such sum is one; in particular it
    returns 3 on size 10, chunk sizes [3, 7] and preferred [4, 6]. *)
Theorem get_breaks_first_disagreement :
  (forall (size : Z) (chunk_sizes : list Z) (p : preferred),
      0 < size ->
      is_partition size chunk_sizes ->
      valid_preferred size p ->
      exists r,
        _get_breaks size chunk_sizes p = Ok r
        /\ first_not_boundary (preferred_boundary size p)
             (interior_sums chunk_sizes) r)
  /\ _get_breaks 10 [3; 7] (PTuple [4; 6]) = Ok (Some 3).
Proof.
  split; [|reflexivity].
  intros size cs p Hsize Hpart Hvalid.
  destruct (decide (p = PInt 1)) as [->|Hp].
  - exists None. split; [reflexivity |]. simpl.
    apply List.Forall_forall. intros a Ha. apply list_elem_of_In in Ha.
    split; [by eapply interior_sums_bounds | apply Z.divide_1_l].
  - destruct (preferred_stops_valid size p Hvalid) as [ps Hps].
    apply (get_breaks_first size cs p ps); [exact Hp | exact Hps |].
    intros a _. by apply preferred_stops_boundary.
Qed.

Lemma get_breaks_first_disagreement_witness :
  exists r,
    _get_breaks 10 [3; 7] (PTuple [4; 6]) = Ok r
    /\ first_not_boundary (preferred_boundary 10 (PTuple [4; 6]))
         (interior_sums [3; 7]) r.
Proof.
  apply (proj1 get_breaks_first_disagreement 10 [3; 7] (PTuple [4; 6])).
  - lia.
  - split; [repeat constructor; lia | reflexivity].
  - split; [repeat constructor; lia | reflexivity].
Defined.

(** C2: with the integer 1 as preferred description the detector returns
    none on every size and every chunk sizes: the test comes before any
    boundary is computed, and a cached call returns the same. *)
Theorem get_breaks_trivial_preference :
  (forall (size : Z) (chunk_sizes : list Z),
      _get_breaks size chunk_sizes (PInt 1) = Ok None)
  /\ (forall (size : Z) (chunk_sizes : list Z) (c : lru),
        reachable c ->
        returned (_get_breaks_cached size chunk_sizes (PInt 1) c) = Ok None).
Proof.
  split; [reflexivity |].
  intros size cs c Hc. by rewrite cached_returned by by apply reachable_consistent.
Qed.

Lemma get_breaks_trivial_preference_witness :
  returned (_get_breaks_cached 10 [3; 7] (PInt 1) []) = Ok None.
Proof.
  apply (proj2 get_breaks_trivial_preference 10 [3; 7] []).
  apply reachable_clear.
Defined.

(** The sequence that a uniform length stands for is a partition of the
    size. *)
Lemma uniform_partition_is_partition (p size : Z) :
  0 < p -> 0 < size -> is_partition size (uniform_partition p size).
Proof.
  intros Hp Hsize. unfold is_partition, uniform_partition.
  pose proof (Z.div_mod size p ltac:(lia)) as Hdm.
  pose proof (Z.mod_pos_bound size p Hp) as Hr.
  assert (0 <= size / p) as Hq by (apply Z.div_pos; lia).
  split.
  - apply Forall_app. split; [by apply Forall_replicate |].
    destruct (size mod p =? 0) eqn:E; [constructor |].
    apply Z.eqb_neq in E. repeat constructor. lia.
  - rewrite sum_Z_app, sum_Z_replicate, Z2Nat.id by exact Hq.
    destruct (size mod p =? 0) eqn:E; simpl.
    + apply Z.eqb_eq in E. lia.
    + lia.
Qed.

(** C3: on the inputs that the detector is specified for (a size > 0,
    chunk sizes that are a partition of the size, a uniform preferred
    length [p] > 0), the sequence that repeats [p] until the size is
    reached, a shorter final chunk permitted, is itself a partition of the
    size, and the detector returns the same with the integer [p] as with
    that sequence; in particular size 9 and chunk sizes [2, 7] give 2 both
    with preferred 3 and with preferred [3, 3, 3]. *)
Theorem get_breaks_uniform_equivalence :
  (forall (size : Z) (chunk_sizes : list Z) (p : Z),
      0 < size ->
      is_partition size chunk_sizes ->
      0 < p ->
      is_partition size (uniform_partition p size)
      /\ _get_breaks size chunk_sizes (PInt p)
         = _get_breaks size chunk_sizes (PTuple (uniform_partition p size)))
  /\ uniform_partition 3 9 = [3; 3; 3]
  /\ _get_breaks 9 [2; 7] (PInt 3) = Ok (Some 2)
  /\ _get_breaks 9 [2; 7] (PTuple [3; 3; 3]) = Ok (Some 2).
Proof.
  split; [|repeat split].
  intros size cs p Hsize Hpart Hp.
  split; [by apply uniform_partition_is_partition |].
  destruct (decide (p = 1)) as [->|Hp1].
  - by rewrite get_breaks_ones.
  - by apply get_breaks_uniform_tuple.
Qed.

Lemma get_breaks_uniform_equivalence_witness :
  is_partition 3 (uniform_partition 1 3)
  /\ _get_breaks 3 [1; 2] (PInt 1)
     = _get_breaks 3 [1; 2] (PTuple (uniform_partition 1 3)).
Proof.
  apply (proj1 get_breaks_uniform_equivalence 3 [1; 2] 1).
  - lia.
  - split; [repeat constructor; lia | reflexivity].
  - lia.
Defined.

(** Chunk sizes with an empty first chunk are no partition into positive
    lengths.  There the test for the integer 1 shows: the integer returns
    none without looking at the chunk sizes, while the sequence of ones
    does not hold the stop 0. *)
Example get_breaks_one_empty_chunk :
  uniform_partition 1 3 = [1; 1; 1]
  /\ _get_breaks 3 [0; 3] (PInt 1) = Ok None
  /\ _get_breaks 3 [0; 3] (PTuple [1; 1; 1]) = Ok (Some 0).
Proof. repeat split. Qed.

(** C10: for size > 0 and [chunk_sizes] a partition of [size] into
    positive lengths, an offset that the detector returns is strictly
    between 0 and [size]; hence the truth value that the resolver tests is
    true exactly when a disagreement was returned.  This holds for the
    function and for its cached form as the resolver calls it. *)
Theorem get_breaks_offset_interior :
  forall (size : Z) (chunk_sizes : list Z) (p : preferred),
    0 < size ->
    is_partition size chunk_sizes ->
    (forall d,
        _get_breaks size chunk_sizes p = Ok d ->
        (forall a, d = Some a -> 0 < a < size)
        /\ (truthy_disagreement d = true <-> d <> None))
    /\ (forall c d,
          reachable c ->
          returned (_get_breaks_cached size chunk_sizes p c) = Ok d ->
          (forall a, d = Some a -> 0 < a < size)
          /\ (truthy_disagreement d = true <-> d <> None)).
Proof.
  intros size cs p Hsize Hpart.
  assert (forall d,
             _get_breaks size cs p = Ok d ->
             (forall a, d = Some a -> 0 < a < size)
             /\ (truthy_disagreement d = true <-> d <> None)) as Hbody.
  { intros d Hd.
    assert (forall a, d = Some a -> 0 < a < size) as Hin.
    { intros a ->. apply get_breaks_Some_elem in Hd.
      by eapply interior_sums_bounds. }
    split; [exact Hin |].
    destruct d as [a|]; simpl; [|split; [discriminate | congruence]].
    specialize (Hin a eq_refl).
    split; [discriminate | intros _].
    apply negb_true_iff, Z.eqb_neq. lia. }
  split; [exact Hbody |].
  intros c d Hc. rewrite cached_returned by by apply reachable_consistent.
  apply Hbody.
Qed.

Lemma get_breaks_offset_interior_witness :
  (forall a, Some 3 = Some a -> 0 < a < 10)
  /\ (truthy_disagreement (Some 3) = true <-> Some 3 <> None).
Proof.
  apply (proj1 (get_breaks_offset_interior 10 [3; 7] (PTuple [4; 6])
                  ltac:(lia)
                  ltac:(split; [repeat constructor; lia | reflexivity]))).
  reflexivity.
Defined.

(** ** Effects of the resolver *)

Lemma transparent_ret {A : Type} (a : A) : transparent (ret a).
Proof. intros c Hc. by split. Qed.

Lemma transparent_raise {A : Type} (e : exception) : transparent (@raise A e).
Proof. intros c Hc. by split. Qed.

Lemma transparent_lift {A : Type} (r : result A) : transparent (lift r).
Proof. intros c Hc. by split. Qed.

Lemma transparent_emit (w : warning) : transparent (emit_user_level_warning w).
Proof. intros c Hc. by split. Qed.

Lemma transparent_bind {A B : Type} (m : M A) (f : A -> M B) :
  transparent m -> (forall a, transparent (f a)) -> transparent (bind m f).
Proof.
  intros Hm Hf c Hc. destruct (Hm c Hc) as [Hr Heq]. unfold bind. split.
  - destruct (returned (m c)) as [a|e]; simpl; [by apply Hf | exact Hr].
  - intros c' Hc'. destruct (Heq c' Hc') as [Hw Hret].
    destruct (Hm c' Hc') as [Hr' _]. rewrite <- Hret, <- Hw.
    destruct (returned (m c)) as [a|e]; simpl; [|done].
    destruct (Hf a _ Hr) as [_ Hfa]. by destruct (Hfa _ Hr') as [-> ->].
Qed.

Lemma transparent_cached (size : Z) (cs : list Z) (p : preferred) :
  transparent (_get_breaks_cached size cs p).
Proof.
  intros c Hc. split; [by apply reachable_call |]. intros c' Hc'.
  rewrite !cached_warnings, !cached_returned by by apply reachable_consistent.
  done.
Qed.

Create HintDb transparent.
#[local] Hint Resolve transparent_ret transparent_raise transparent_lift
  transparent_emit transparent_cached : transparent.

Section ResolverFacts.

Context {dtype : Type} {chunkmanager : ChunkManagerEntrypoint dtype}.

Lemma transparent_warn_break (pc : gmap string preferred) (dim : string)
    (size : Z) (cs : list Z) :
  transparent (warn_break pc dim size cs).
Proof.
  unfold warn_break. destruct (pc !! dim); [|auto with transparent].
  apply transparent_bind; [auto with transparent |].
  intros d. destruct (truthy_disagreement d); auto with transparent.
Qed.

Lemma transparent_warn_breaks (pc : gmap string preferred)
    (dims : list string) (shape : list Z) (chunk_shape : list (list Z)) :
  transparent (warn_breaks pc dims shape chunk_shape).
Proof.
  revert shape chunk_shape.
  induction dims as [|dim dims IH]; intros [|size shape] [|cs chunk_shape];
    simpl; auto with transparent.
  apply transparent_bind; [apply transparent_warn_break | auto].
Qed.

Lemma transparent_get_chunk (var : variable dtype) (chunks : chunks_arg) :
  transparent (_get_chunk var chunks).
Proof.
  unfold _get_chunk. destruct (is_IndexVariable var); [auto with transparent |].
  do 3 (apply transparent_bind; [by auto with transparent | intros ?]).
  apply transparent_bind.
  - destruct (negb _); [apply transparent_warn_breaks | auto with transparent].
  - intros _. apply transparent_bind; auto with transparent.
Qed.

(** A warning of the loop body names its dimension, which has a recorded
    preferred description. *)
Lemma warn_break_warnings (pc : gmap string preferred) (dim : string)
    (size : Z) (cs : list Z) (c : lru) :
  Forall (fun w : warning => w.1 = dim /\ is_Some (pc !! dim))
    (warnings (warn_break pc dim size cs c)).
Proof.
  unfold warn_break. destruct (pc !! dim) as [p|] eqn:E; [|constructor].
  unfold bind. rewrite cached_warnings.
  destruct (returned _) as [d|e]; simpl; [|constructor].
  destruct (truthy_disagreement d); simpl; repeat constructor; eauto.
Qed.

Lemma warn_breaks_warnings (pc : gmap string preferred) (dims : list string)
    (shape : list Z) (chunk_shape : list (list Z)) (c : lru) :
  Forall (fun w : warning => w.1 ∈ dims /\ is_Some (pc !! w.1))
    (warnings (warn_breaks pc dims shape chunk_shape c)).
Proof.
  revert shape chunk_shape c.
  induction dims as [|dim dims IH]; intros [|size shape] [|cs chunk_shape] c;
    simpl; try constructor.
  unfold bind.
  pose proof (warn_break_warnings pc dim size cs c) as Hw.
  assert (Forall (fun w : warning => w.1 ∈ dim :: dims /\ is_Some (pc !! w.1))
            (warnings (warn_break pc dim size cs c))) as Hw'.
  { eapply Forall_impl; [exact Hw |]. intros w [-> Hsome].
    split; [by left | exact Hsome]. }
  destruct (returned _) as [[]|e]; simpl; [|exact Hw'].
  apply Forall_app. split; [exact Hw' |].
  eapply Forall_impl; [apply IH |]. intros w [Hin Hsome].
  split; [by right | exact Hsome].
Qed.

(** [_get_chunk] on a variable that is not an index variable: the chunk
    shape is computed without effect, then the warnings, then the
    dictionary. *)
Lemma get_chunk_unfold (var : variable dtype) (chunks : chunks_arg) (c : lru) :
  is_IndexVariable var = false ->
  _get_chunk var chunks c
  = match normalized_chunk_shape var chunks with
    | Raise e => mk_outcome c [] (Raise e)
    | Ok chunk_shape =>
        let o :=
          (if negb (var_size var =? 0)
           then warn_breaks (default ∅ (encoding_preferred_chunks var))
                  (dims var) (shape var) chunk_shape
           else ret tt) c in
        mk_outcome (cache_after o) (warnings o)
          match returned o with
          | Raise e => Raise e
          | Ok _ =>
              match zip_strict (dims var) chunk_shape with
              | Raise e => Raise e
              | Ok pairs => Ok (dict pairs)
              end
          end
    end.
Proof.
  intros Hidx. unfold _get_chunk, normalized_chunk_shape. rewrite Hidx.
  unfold bind, lift, ret; simpl.
  destruct (preferred_chunk_shape_of _ _ _) as [pcs|e]; simpl; [|reflexivity].
  destruct (candidate_chunk_shape _ _ _) as [cand|e]; simpl; [|reflexivity].
  destruct (normalize_chunks _ _ _ _) as [cs|e]; simpl; [|reflexivity].
  destruct (returned _) as [[]|e]; simpl; [|reflexivity].
  destruct (zip_strict _ _) as [pairs|e]; simpl; by rewrite !app_nil_r.
Qed.

End ResolverFacts.

(** ** Zips, lookups and dictionaries *)

Lemma lookup_map {A B : Type} (f : A -> B) (l : list A) (i : nat) :
  map f l !! i = f <$> (l !! i).
Proof. revert i; induction l as [|x l IH]; intros [|i]; simpl; auto. Qed.

Lemma zip_strict_eq {A B : Type} (xs : list A) (ys : list B) :
  length xs = length ys -> zip_strict xs ys = Ok (zip xs ys).
Proof.
  revert ys; induction xs as [|x xs IH]; intros [|y ys]; simpl;
    try discriminate; [reflexivity |].
  intros [= Hlen]. by rewrite IH.
Qed.

Lemma zip_strict_ne {A B : Type} (xs : list A) (ys : list B) :
  length xs <> length ys -> zip_strict xs ys = Raise ValueError.
Proof.
  revert ys; induction xs as [|x xs IH]; intros [|y ys]; simpl;
    try congruence.
  intros Hlen. rewrite IH; [reflexivity | congruence].
Qed.

Lemma zip_strict_Ok {A B : Type} (xs : list A) (ys : list B)
    (l : list (A * B)) :
  zip_strict xs ys = Ok l -> length xs = length ys /\ l = zip xs ys.
Proof.
  destruct (decide (length xs = length ys)) as [Hlen|Hlen].
  - rewrite zip_strict_eq by exact Hlen. by intros [= <-].
  - by rewrite zip_strict_ne.
Qed.

Lemma lookup_fromkeys (dims : list string) (value : T_ChunkDim) (dim : string) :
  fromkeys dims value !! dim = if decide (dim ∈ dims) then Some value else None.
Proof.
  induction dims as [|d dims IH].
  - change (fromkeys [] value) with (∅ : gmap string T_ChunkDim).
    rewrite lookup_empty, decide_False; [done | apply not_elem_of_nil].
  - change (fromkeys (d :: dims) value)
      with (<[d := value]> (fromkeys dims value)).
    rewrite lookup_insert. destruct (decide (d = dim)) as [->|Hd].
    + rewrite decide_True; [done | by left].
    + rewrite IH. destruct (decide (dim ∈ dims)) as [Hin|Hin].
      * rewrite decide_True; [done | by right].
      * rewrite decide_False; [done |].
        intros [E|Hin']%elem_of_cons; congruence.
Qed.

Lemma dict_get_setitem {V : Type} (d : list (string * V)) (k k' : string)
    (v : V) :
  dict_get (dict_setitem d k' v) k
  = if decide (k = k') then Some v else dict_get d k.
Proof.
  induction d as [|[k0 v0] d IH]; simpl; [reflexivity |].
  destruct (decide (k' = k0)) as [->|Hk0]; simpl.
  - repeat case_decide; congruence.
  - rewrite IH. repeat case_decide; congruence.
Qed.

Lemma dict_get_fold {V : Type} (pairs d : list (string * V)) (k : string)
    (v : V) :
  dict_get (fold_left (fun d kv => dict_setitem d kv.1 kv.2) pairs d) k = Some v ->
  (k, v) ∈ pairs \/ dict_get d k = Some v.
Proof.
  revert d; induction pairs as [|[k0 v0] pairs IH]; intros d; simpl; [by right |].
  intros Hget. apply IH in Hget as [Hin|Hget]; [left; by right |].
  rewrite dict_get_setitem in Hget. simpl in Hget.
  case_decide as Hk; [|by right].
  injection Hget as <-. subst. left. by left.
Qed.

(** An entry of [dict(pairs)] is one of the pairs. *)
Lemma dict_get_elem {V : Type} (pairs : list (string * V)) (k : string) (v : V) :
  dict_get (dict pairs) k = Some v -> (k, v) ∈ pairs.
Proof. intros H. by apply dict_get_fold in H as [H|H]. Qed.

Lemma dict_setitem_fresh {V : Type} (d : list (string * V)) (k : string) (v : V) :
  k ∉ d.*1 -> dict_setitem d k v = d ++ [(k, v)].
Proof.
  induction d as [|[k0 v0] d IH]; simpl; [reflexivity |].
  intros Hk. apply not_elem_of_cons in Hk as [Hne Hk].
  rewrite decide_False by exact Hne. by rewrite IH.
Qed.

Lemma dict_fold_NoDup {V : Type} (pairs d : list (string * V)) :
  NoDup ((d ++ pairs).*1) ->
  fold_left (fun d kv => dict_setitem d kv.1 kv.2) pairs d = d ++ pairs.
Proof.
  revert d; induction pairs as [|[k v] pairs IH]; intros d Hnd; simpl.
  - by rewrite app_nil_r.
  - rewrite dict_setitem_fresh.
    + rewrite IH; rewrite <- app_assoc; [reflexivity | exact Hnd].
    + rewrite fmap_app in Hnd. apply NoDup_app in Hnd as (_ & Hd & _).
      intros Hin. apply (Hd k Hin). by left.
Qed.

(** With distinct keys the dictionary keeps the pairs in their order. *)
Lemma dict_NoDup {V : Type} (pairs : list (string * V)) :
  NoDup (pairs.*1) -> dict pairs = pairs.
Proof. intros Hnd. unfold dict. by rewrite dict_fold_NoDup. Qed.

(** ** Theorems on the resolver *)

(** C4: whatever the variable, the request, the chunk manager and the
    cache, every warning that [_get_chunk] emits names a dimension of the
    variable with a recorded entry in its preferred-chunks map; a
    dimension without one never gives a warning. *)
Theorem get_chunk_warns_recorded_only :
  forall (dtype : Type) (chunkmanager : ChunkManagerEntrypoint dtype)
         (var : variable dtype) (chunks : chunks_arg) (c : lru),
    Forall
      (fun w : warning =>
         w.1 ∈ dims var
         /\ is_Some (default ∅ (encoding_preferred_chunks var) !! w.1))
      (warnings (_get_chunk var chunks c)).
Proof.
  intros dtype cm var chunks c.
  destruct (is_IndexVariable var) eqn:Hidx.
  - unfold _get_chunk. rewrite Hidx. constructor.
  - rewrite get_chunk_unfold by exact Hidx.
    destruct (normalized_chunk_shape var chunks) as [cs|e]; simpl; [|constructor].
    destruct (negb _); [apply warn_breaks_warnings | constructor].
Qed.

(** A warning is emitted where the request cuts a stored chunk. *)
Example get_chunk_warns_stored_4_6 :
  _get_chunk var_stored_4_6 request_x_5 []
  = mk_outcome [((10, [5; 5], PTuple [4; 6]), Some 5)]
      [("x"%string, 5)] (Ok [("x"%string, [5; 5])]).
Proof. vm_compute. reflexivity. Qed.

(** C5: a variable whose total element count is zero gives no warning at
    all and leaves the cache alone, and the call still returns the
    resolved mapping: the dictionary of the dimensions and of the chunk
    shape that the chunk manager returned. *)
Theorem get_chunk_empty_no_warning :
  forall (dtype : Type) (chunkmanager : ChunkManagerEntrypoint dtype)
         (var : variable dtype) (chunks : chunks_arg) (c : lru),
    var_size var = 0 ->
    warnings (_get_chunk var chunks c) = []
    /\ cache_after (_get_chunk var chunks c) = c
    /\ returned (_get_chunk var chunks c)
       = if is_IndexVariable var then Ok []
         else match normalized_chunk_shape var chunks with
              | Raise e => Raise e
              | Ok chunk_shape =>
                  match zip_strict (dims var) chunk_shape with
                  | Raise e => Raise e
                  | Ok pairs => Ok (dict pairs)
                  end
              end.
Proof.
  intros dtype cm var chunks c Hsize.
  destruct (is_IndexVariable var) eqn:Hidx.
  - unfold _get_chunk. by rewrite Hidx.
  - rewrite get_chunk_unfold by exact Hidx.
    destruct (normalized_chunk_shape var chunks) as [cs|e]; simpl; [|done].
    by rewrite Hsize.
Qed.

Lemma get_chunk_empty_no_warning_witness :
  warnings (_get_chunk var_empty request_x_5 []) = []
  /\ cache_after (_get_chunk var_empty request_x_5 []) = []
  /\ returned (_get_chunk var_empty request_x_5 [])
     = Ok [("x"%string, [5; 5]); ("y"%string, [0])].
Proof.
  apply (get_chunk_empty_no_warning unit example_chunkmanager var_empty
           request_x_5 []).
  reflexivity.
Defined.

(** C6: on an index variable [_get_chunk] returns the empty mapping,
    emits no warning and does not touch the cache, whatever is requested
    and whatever is preferred. *)
Theorem get_chunk_index_variable :
  forall (dtype : Type) (chunkmanager : ChunkManagerEntrypoint dtype)
         (var : variable dtype) (chunks : chunks_arg) (c : lru),
    is_IndexVariable var = true ->
    _get_chunk var chunks c = mk_outcome c [] (Ok []).
Proof. intros dtype cm var chunks c Hidx. unfold _get_chunk. by rewrite Hidx. Qed.

Lemma get_chunk_index_variable_witness :
  _get_chunk var_index (ChunksNumber 3) [] = mk_outcome [] [] (Ok []).
Proof.
  apply (get_chunk_index_variable unit example_chunkmanager var_index
           (ChunksNumber 3) []).
  reflexivity.
Defined.

(** C7, as stated, fails: a recorded preferred partition that does not sum
    to the size of its dimension does not make the call fail. *)
Lemma get_chunk_accepts_preferred_mismatch :
  ~ (forall (var : variable unit) (chunks : chunks_arg) (c : lru),
        preferred_mismatch var ->
        exists e, returned (_get_chunk var chunks c) = Raise e).
Proof.
  intros H.
  destruct (H var_stored_4_4 request_x_5 []) as [e He].
  - exists 0%nat, "x"%string, 10, [4; 4]. repeat split; discriminate.
  - vm_compute in He. discriminate He.
Qed.

(** What the call does there: it returns the mapping and warns. *)
Example get_chunk_stored_4_4 :
  sum_Z [4; 4] <> 10
  /\ warnings (_get_chunk var_stored_4_4 request_x_5 []) = [("x"%string, 5)]
  /\ returned (_get_chunk var_stored_4_4 request_x_5 [])
     = Ok [("x"%string, [5; 5])].
Proof. repeat split. discriminate. Qed.

(** Nor is what the chunk manager returns checked against the shape. *)
Example get_chunk_careless_chunkmanager :
  returned (@_get_chunk unit careless_chunkmanager var_plain request_x_5 [])
  = Ok [("x"%string, [3; 3])].
Proof. reflexivity. Qed.

(** C7, amended: on a variable that is not an index variable, [dims] and
    [shape] of different lengths make the call fail at once with
    [ValueError], before the chunk manager is called, with no warning and
    the cache untouched.  The sums of the partitions are not checked: a
    mapping that is returned is the dictionary of the dimensions and of
    the chunk shape that the chunk manager returned, so its partitions sum
    to the sizes of their dimensions whenever those of the chunk manager
    do. *)
Theorem get_chunk_input_checks :
  forall (dtype : Type) (chunkmanager : ChunkManagerEntrypoint dtype)
         (var : variable dtype) (chunks : chunks_arg) (c : lru),
    is_IndexVariable var = false ->
    (length (dims var) <> length (shape var) ->
     normalized_chunk_shape var chunks = Raise ValueError
     /\ _get_chunk var chunks c = mk_outcome c [] (Raise ValueError))
    /\ (forall m,
          returned (_get_chunk var chunks c) = Ok m ->
          exists chunk_shape,
            normalized_chunk_shape var chunks = Ok chunk_shape
            /\ length chunk_shape = length (dims var)
            /\ m = dict (zip (dims var) chunk_shape)
            /\ (Forall2 (fun size l => sum_Z l = size) (shape var) chunk_shape ->
                forall dim l,
                  dict_get m dim = Some l ->
                  exists i : nat,
                    dims var !! i = Some dim
                    /\ shape var !! i = Some (sum_Z l))).
Proof.
  intros dtype cm var chunks c Hidx. split.
  - intros Hlen.
    assert (normalized_chunk_shape var chunks = Raise ValueError) as Hn.
    { unfold normalized_chunk_shape, preferred_chunk_shape_of.
      by rewrite zip_strict_ne. }
    split; [exact Hn |]. by rewrite get_chunk_unfold, Hn.
  - intros m. rewrite get_chunk_unfold by exact Hidx.
    destruct (normalized_chunk_shape var chunks) as [cs|e]; simpl; [|discriminate].
    destruct (returned _) as [[]|e]; [|discriminate].
    destruct (zip_strict (dims var) cs) as [pairs|e] eqn:Hzip; [|discriminate].
    apply zip_strict_Ok in Hzip as [Hlen ->]. intros [= <-].
    exists cs. repeat split; [done |].
    intros Hsums dim l Hget. apply dict_get_elem in Hget.
    apply list_elem_of_lookup_1 in Hget as [i Hi].
    apply lookup_zip_with_Some in Hi as (d & l' & [= <- <-] & Hd & Hl).
    exists i. split; [exact Hd |].
    destruct (Forall2_lookup_r _ _ _ _ _ Hsums Hl) as (size & Hs & <-).
    exact Hs.
Qed.

Lemma get_chunk_input_checks_witness :
  normalized_chunk_shape var_ragged request_x_5 = Raise ValueError
  /\ _get_chunk var_ragged request_x_5 [] = mk_outcome [] [] (Raise ValueError).
Proof.
  apply (proj1 (get_chunk_input_checks unit example_chunkmanager var_ragged
                  request_x_5 [] eq_refl)).
  simpl. lia.
Defined.

(** C8, as stated, fails: a dimension present in the request with the
    value 0, which is not null, does not get 0 as its candidate. *)
Lemma candidate_request_zero_not_submitted :
  ~ (forall (var : variable unit) (chunks : chunks_arg)
            (preferred_chunk_shape : list preferred)
            (candidates : list T_ChunkDim) (i : nat) (dim : string)
            (requested : T_ChunkDim),
        is_IndexVariable var = false ->
        preferred_chunk_shape_of (default ∅ (encoding_preferred_chunks var))
          (dims var) (shape var) = Ok preferred_chunk_shape ->
        candidate_chunk_shape (chunks_mapping (dims var) chunks) (dims var)
          preferred_chunk_shape = Ok candidates ->
        dims var !! i = Some dim ->
        chunks_mapping (dims var) chunks !! dim = Some requested ->
        requested <> CD_None ->
        candidates !! i = Some requested).
Proof.
  intros H.
  specialize (H var_plain request_x_0 [PInt 10] [CD_Int 10] 0%nat "x"%string
                (CD_Int 0) eq_refl eq_refl eq_refl eq_refl eq_refl
                ltac:(discriminate)).
  discriminate H.
Qed.

(** What is submitted there: the full size of the dimension. *)
Example candidate_request_zero :
  candidate_chunk_shape (chunks_mapping (dims var_plain) request_x_0)
    (dims var_plain) [PInt 10]
  = Ok [CD_Int 10].
Proof. reflexivity. Qed.

(** C8, amended: for every dimension of a variable that is not an index
    variable, the candidate submitted to the chunk manager is the
    requested value whenever the dimension is present in the request with
    a value that is true in Python's sense (not null, not the integer 0,
    not an empty sequence), and otherwise the preferred description of the
    dimension, the full size of the dimension when none is recorded. *)
Theorem candidate_is_true_request_or_preferred :
  forall (dtype : Type) (chunkmanager : ChunkManagerEntrypoint dtype)
         (var : variable dtype) (chunks : chunks_arg),
    length (dims var) = length (shape var) ->
    let preferred_chunks := default ∅ (encoding_preferred_chunks var) in
    exists preferred_chunk_shape candidates,
      preferred_chunk_shape_of preferred_chunks (dims var) (shape var)
      = Ok preferred_chunk_shape
      /\ candidate_chunk_shape (chunks_mapping (dims var) chunks) (dims var)
           preferred_chunk_shape = Ok candidates
      /\ normalized_chunk_shape var chunks
         = normalize_chunks candidates (shape var) (var_dtype var)
             preferred_chunk_shape
      /\ forall (i : nat) (dim : string) (size : Z),
          dims var !! i = Some dim ->
          shape var !! i = Some size ->
          let preferred_chunk_sizes :=
            default (PInt size) (preferred_chunks !! dim) in
          candidates !! i
          = Some match chunks_mapping (dims var) chunks !! dim with
                 | Some requested =>
                     if truthy requested then requested
                     else of_preferred preferred_chunk_sizes
                 | None => of_preferred preferred_chunk_sizes
                 end.
Proof.
  intros dtype cm var chunks Hlen pc.
  set (pcs := map (fun ds : string * Z => default (PInt ds.2) (pc !! ds.1))
                (zip (dims var) (shape var))).
  assert (length (dims var) = length pcs) as Hlen'.
  { unfold pcs. rewrite length_map.
    rewrite (length_zip_with_l_eq pair (dims var) (shape var) Hlen).
    reflexivity. }
  exists pcs. eexists.
  unfold normalized_chunk_shape, preferred_chunk_shape_of,
    candidate_chunk_shape. fold pc.
  rewrite (zip_strict_eq _ _ Hlen). cbn match. fold pcs.
  rewrite (zip_strict_eq _ _ Hlen').
  repeat split.
  intros i dim size Hdim Hsize. unfold pcs.
  rewrite lookup_map, lookup_zip_with, Hdim, lookup_map, lookup_zip_with.
  rewrite Hdim, Hsize. simpl. f_equal. unfold py_or.
  by destruct (chunks_mapping (dims var) chunks !! dim).
Qed.

Lemma candidate_is_true_request_or_preferred_witness :
  exists preferred_chunk_shape candidates,
    preferred_chunk_shape_of ∅ ["x"%string] [10] = Ok preferred_chunk_shape
    /\ candidate_chunk_shape (chunks_mapping ["x"%string] request_x_5)
         ["x"%string] preferred_chunk_shape = Ok candidates
    /\ normalized_chunk_shape var_plain request_x_5
       = normalize_chunks candidates [10] tt preferred_chunk_shape
    /\ forall (i : nat) (dim : string) (size : Z),
        ["x"%string] !! i = Some dim ->
        [10] !! i = Some size ->
        candidates !! i
        = Some match chunks_mapping ["x"%string] request_x_5 !! dim with
               | Some requested =>
                   if truthy requested then requested
                   else of_preferred
                          (default (PInt size)
                             ((∅ : gmap string preferred) !! dim))
               | None =>
                   of_preferred
                     (default (PInt size) ((∅ : gmap string preferred) !! dim))
               end.
Proof.
  apply (candidate_is_true_request_or_preferred unit example_chunkmanager
           var_plain request_x_5).
  reflexivity.
Defined.

(** A number or ["auto"] is requested for every dimension of the
    variable. *)
Lemma chunks_mapping_scalar (dims : list string) (dim : string) (n : Z) :
  dim ∈ dims ->
  chunks_mapping dims (ChunksNumber n) !! dim = Some (CD_Int n)
  /\ chunks_mapping dims ChunksAuto !! dim = Some CD_Auto.
Proof. intros Hin. simpl. by rewrite !lookup_fromkeys, !decide_True. Qed.

(** ** The cache and the resolver *)

(** C9: the result of the detector does not depend on the cache: from
    every state that the cache can be in, cold or warm, the cached call
    returns what the function itself computes; and [_get_chunk] returns
    the same mapping and emits the same warnings from every such state, in
    particular when the same variable and request are resolved a second
    time. *)
Theorem cache_transparency :
  (forall (size : Z) (chunk_sizes : list Z) (p : preferred) (c : lru),
      reachable c ->
      returned (_get_breaks_cached size chunk_sizes p c)
      = _get_breaks size chunk_sizes p)
  /\ (forall (dtype : Type) (chunkmanager : ChunkManagerEntrypoint dtype)
             (var : variable dtype) (chunks : chunks_arg) (c c' : lru),
        reachable c ->
        reachable c' ->
        returned (_get_chunk var chunks c) = returned (_get_chunk var chunks c')
        /\ warnings (_get_chunk var chunks c)
           = warnings (_get_chunk var chunks c'))
  /\ (forall (dtype : Type) (chunkmanager : ChunkManagerEntrypoint dtype)
             (var : variable dtype) (chunks : chunks_arg) (c : lru),
        reachable c ->
        let first := _get_chunk var chunks c in
        let second := _get_chunk var chunks (cache_after first) in
        returned second = returned first
        /\ warnings second = warnings first).
Proof.
  split; [|split].
  - intros size cs p c Hc. by apply cached_returned, reachable_consistent.
  - intros dtype cm var chunks c c' Hc Hc'.
    destruct (transparent_get_chunk var chunks c Hc) as [_ H].
    by destruct (H c' Hc') as [-> ->].
  - intros dtype cm var chunks c Hc first second.
    destruct (transparent_get_chunk var chunks c Hc) as [Hr H].
    destruct (H _ Hr) as [Hw Hret]. split; symmetry; assumption.
Qed.

Lemma cache_transparency_witness :
  let first := _get_chunk var_stored_4_6 request_x_5 [] in
  let second := _get_chunk var_stored_4_6 request_x_5 (cache_after first) in
  returned second = returned first /\ warnings second = warnings first.
Proof.
  apply (proj2 (proj2 cache_transparency) unit example_chunkmanager
           var_stored_4_6 request_x_5 []).
  apply reachable_clear.
Defined.

(** The second resolution is answered from the cache. *)
Example get_chunk_second_call_hits :
  let first := _get_chunk var_stored_4_6 request_x_5 [] in
  cache_get (10, [5; 5], PTuple [4; 6]) (cache_after first) = Some (Some 5)
  /\ _get_chunk var_stored_4_6 request_x_5 (cache_after first) = first.
Proof. vm_compute. split; reflexivity. Qed.

(** ** Further facts and examples *)

(** X1: chunk sizes equal to the preferred sequence never break it: the
    detector returns none on every size and every sequence, also one that
    does not sum to the size. *)
Lemma get_breaks_exact_match (size : Z) (chunk_sizes : list Z) :
  _get_breaks size chunk_sizes (PTuple chunk_sizes) = Ok None.
Proof.
  rewrite get_breaks_unfold, decide_False by discriminate. simpl. f_equal.
  set (xs := accumulate (drop_last chunk_sizes)).
  pose proof (next_compress_first
                (fun a => negb (bool_decide (a ∈ (list_to_set xs : gset Z)))) xs)
    as Hfirst.
  destruct (next_or_None _) as [a|]; [exfalso | reflexivity].
  destruct Hfirst as (before & after & E & _ & Ha).
  apply negb_true_iff, bool_decide_eq_false in Ha. apply Ha.
  apply elem_of_list_to_set. rewrite E. apply list_elem_of_In, in_or_app.
  right. by left.
Qed.

(** One chunk over the whole dimension has no interior stop. *)
Example get_breaks_single_chunk : _get_breaks 10 [10] (PInt 4) = Ok None.
Proof. reflexivity. Qed.

(** A uniform preferred length of 0 makes [range] raise. *)
Example get_breaks_step_zero : _get_breaks 9 [3; 6] (PInt 0) = Raise ValueError.
Proof. reflexivity. Qed.

(** A negative uniform length gives an empty [range] below a positive
    size: every interior stop disagrees. *)
Example get_breaks_negative_step : _get_breaks 9 [3; 6] (PInt (-3)) = Ok (Some 3).
Proof. reflexivity. Qed.

(** With distinct dimension names the mapping returned lists the
    dimensions in their declared order. *)
Example get_chunk_keeps_order :
  returned (_get_chunk var_empty (ChunksNumber 4) [])
  = Ok [("x"%string, [4; 4; 2]); ("y"%string, [0])].
Proof. reflexivity. Qed.

(** * Further properties of the code *)

(** ** The detector *)

Lemma preferred_stops_of_Raise (size : Z) (p : preferred) (e : exception) :
  preferred_stops_of size p = Raise e <-> p = PInt 0 /\ e = ValueError.
Proof.
  destruct p as [p|l]; simpl.
  - unfold range_new. destruct (p =? 0) eqn:E.
    + apply Z.eqb_eq in E. subst. split; [by intros [= <-] | by intros [_ ->]].
    + apply Z.eqb_neq in E. split; [discriminate | intros [[= ->] _]; lia].
  - split; [discriminate | intros [[=] _]].
Qed.

(** When the preferred stops exist, no break is reported exactly when they
    contain every interior stop of [chunk_sizes]. *)
Lemma get_breaks_None_iff (size : Z) (cs : list Z) (p : preferred) (ps : stops) :
  p <> PInt 1 ->
  preferred_stops_of size p = Ok ps ->
  _get_breaks size cs p = Ok None
  <-> forall a, a ∈ interior_sums cs -> stops_contains ps a = true.
Proof.
  intros Hp Hps.
  destruct (get_breaks_first size cs p ps (fun a => stops_contains ps a = true)
              Hp Hps) as (r & Hr & Hfirst); [done |].
  rewrite Hr. split.
  - intros [= ->] a Ha. simpl in Hfirst.
    eapply List.Forall_forall in Hfirst; [exact Hfirst | by apply list_elem_of_In].
  - intros Hall. f_equal.
    eapply first_not_boundary_unique; [exact Hfirst |]. simpl.
    apply List.Forall_forall. intros a Ha. by apply Hall, list_elem_of_In.
Qed.

Lemma sum_Z_concat (groups : list (list Z)) :
  sum_Z (concat groups) = sum_Z (map sum_Z groups).
Proof.
  induction groups as [|g groups IH]; simpl; [reflexivity |].
  by rewrite sum_Z_app, IH.
Qed.

Lemma concat_nonempty (groups : list (list Z)) :
  Forall (fun g => g <> []) groups -> groups <> [] ->
  (0 < length (concat groups))%nat.
Proof.
  intros Hne Hg. destruct groups as [|g groups]; [done |].
  apply Forall_cons in Hne as [Hg0 _]. simpl. rewrite length_app.
  destruct g; [done | simpl; lia].
Qed.

(** The stops between merged chunks are stops between the chunks that
    were merged. *)
Lemma interior_sums_merged (groups : list (list Z)) (a : Z) :
  Forall (fun g => g <> []) groups ->
  a ∈ interior_sums (map sum_Z groups) ->
  a ∈ interior_sums (concat groups).
Proof.
  intros Hne. rewrite !elem_interior_sums. intros (k & Hk & ->).
  rewrite length_map in Hk.
  exists (length (concat (take k groups))).
  assert (concat groups = concat (take k groups) ++ concat (drop k groups))
    as Hsplit by (by rewrite <- concat_app, take_drop).
  assert (0 < length (concat (take k groups)))%nat.
  { apply concat_nonempty; [by apply Forall_take |].
    intros E. apply (f_equal length) in E. rewrite length_take in E.
    simpl in E. lia. }
  assert (0 < length (concat (drop k groups)))%nat.
  { apply concat_nonempty; [by apply Forall_drop |].
    intros E. apply (f_equal length) in E. rewrite length_drop in E.
    simpl in E. lia. }
  split.
  - rewrite Hsplit, length_app. lia.
  - rewrite firstn_map, <- sum_Z_concat. f_equal.
    rewrite Hsplit. by rewrite take_app_length.
Qed.

(** X2: chunks that are unions of whole consecutive stored chunks never
    break them: when every chunk is the sum of a non-empty group of
    consecutive preferred chunks, the detector returns none. *)
Theorem get_breaks_merged_chunks :
  forall (size : Z) (groups : list (list Z)),
    Forall (fun g => g <> []) groups ->
    _get_breaks size (map sum_Z groups) (PTuple (concat groups)) = Ok None.
Proof.
  intros size groups Hne.
  apply (get_breaks_None_iff size _ (PTuple (concat groups))
           (StopsSet (list_to_set (accumulate (drop_last (concat groups))))));
    [discriminate | reflexivity |].
  intros a Ha. simpl.
  rewrite bool_decide_eq_true, elem_of_list_to_set, accumulate_drop_last.
  by apply interior_sums_merged.
Qed.

Lemma get_breaks_merged_chunks_witness :
  _get_breaks 20 (map sum_Z [[4; 6]; [5]; [2; 3]])
    (PTuple (concat [[4; 6]; [5]; [2; 3]]))
  = Ok None.
Proof.
  apply (get_breaks_merged_chunks 20 [[4; 6]; [5]; [2; 3]]).
  repeat constructor; discriminate.
Defined.

(** X3: with a uniform preferred length [p], chunks of a uniform length
    that is a positive multiple of [p] never break the stored chunks,
    whatever the size. *)
Theorem get_breaks_multiple_of_preferred :
  forall (size p k : Z),
    0 < p ->
    0 < k ->
    _get_breaks size (uniform_partition (k * p) size) (PInt p) = Ok None.
Proof.
  intros size p k Hp Hk.
  destruct (decide (p = 1)) as [->|Hp1]; [reflexivity |].
  apply (get_breaks_None_iff size _ (PInt p) (StopsRange (mk_range p size p))).
  - congruence.
  - simpl. unfold range_new.
    destruct (p =? 0) eqn:E; [apply Z.eqb_eq in E; lia | reflexivity].
  - intros a Ha. simpl. apply range_contains_multiples; [exact Hp |].
    apply interior_sums_uniform in Ha as [Ha Hdiv]; [|nia].
    split; [exact Ha |].
    etrans; [|exact Hdiv]. by exists k.
Qed.

Lemma get_breaks_multiple_of_preferred_witness :
  _get_breaks 10 (uniform_partition (2 * 2) 10) (PInt 2) = Ok None.
Proof. apply (get_breaks_multiple_of_preferred 10 2 2); lia. Defined.

(** X4: the detector raises in one case only, a uniform preferred length
    of 0, and then it is [ValueError] (from [range] with step 0),
    whatever the size and the chunk sizes. *)
Theorem get_breaks_raises_iff :
  forall (size : Z) (chunk_sizes : list Z) (p : preferred) (e : exception),
    _get_breaks size chunk_sizes p = Raise e <-> p = PInt 0 /\ e = ValueError.
Proof.
  intros size cs p e. rewrite get_breaks_unfold.
  case_decide as Hp.
  - subst. split; [discriminate | intros [[=] _]].
  - rewrite <- (preferred_stops_of_Raise size).
    destruct (preferred_stops_of size p) as [ps|e'];
      split; try discriminate; by intros [= ->].
Qed.

(** X5: chunk sizes with at most one chunk (one chunk over the whole
    dimension, or none) have no interior stop: the detector returns none
    for every preferred description that does not make it raise. *)
Theorem get_breaks_at_most_one_chunk :
  forall (size : Z) (chunk_sizes : list Z) (p : preferred),
    (length chunk_sizes <= 1)%nat ->
    p <> PInt 0 ->
    _get_breaks size chunk_sizes p = Ok None.
Proof.
  intros size cs p Hlen Hp. rewrite get_breaks_unfold.
  case_decide; [reflexivity |].
  destruct (preferred_stops_of size p) as [ps|e] eqn:Hps.
  - destruct cs as [|x [|y cs]]; [reflexivity | reflexivity | simpl in Hlen; lia].
  - apply preferred_stops_of_Raise in Hps as [-> _]. congruence.
Qed.

Lemma get_breaks_at_most_one_chunk_witness :
  _get_breaks 10 [10] (PTuple [4; 6]) = Ok None.
Proof.
  apply (get_breaks_at_most_one_chunk 10 [10] (PTuple [4; 6]));
    [simpl; lia | discriminate].
Defined.

(** X6: the detector never looks at the last chunk length, neither of
    [chunk_sizes] nor of a preferred sequence, nor at the size when the
    preferred description is a sequence: changing them changes nothing, so
    sequences that do not add up to the size go unnoticed. *)
Theorem get_breaks_ignores_last :
  forall (size size' : Z) (chunks preferred_chunks : list Z) (a b x y : Z),
    _get_breaks size (chunks ++ [a]) (PTuple (preferred_chunks ++ [x]))
    = _get_breaks size' (chunks ++ [b]) (PTuple (preferred_chunks ++ [y]))
    /\ forall p : Z,
        _get_breaks size (chunks ++ [a]) (PInt p)
        = _get_breaks size (chunks ++ [b]) (PInt p).
Proof.
  intros size size' cs pcs a b x y. split; [|intros p];
    rewrite !get_breaks_unfold; unfold preferred_stops_of, drop_last;
    by rewrite !removelast_last.
Qed.

(** ** The cache *)

Lemma cache_unlink_absent (k : key) (c : lru) :
  cache_get k c = None -> cache_unlink k c = c.
Proof.
  induction c as [|[k0 v0] c IH]; simpl; [reflexivity |].
  case_decide; [discriminate |]. intros Hget. by rewrite IH.
Qed.

Lemma cache_get_take_None (n : nat) (k : key) (c : lru) :
  cache_get k c = None -> cache_get k (take n c) = None.
Proof.
  intros Hget. destruct (cache_get k (take n c)) as [v|] eqn:E; [|reflexivity].
  apply cache_get_take in E. congruence.
Qed.

Lemma cache_store_cons (k : key) (v : option Z) (c : lru) :
  cache_store k v c = (k, v) :: take (maxsize - 1) c.
Proof. reflexivity. Qed.

Lemma cached_hit (size : Z) (cs : list Z) (p : preferred) (c : lru)
    (v : option Z) :
  cache_get (size, cs, p) c = Some v ->
  _get_breaks_cached size cs p c
  = mk_outcome (cache_move_to_front (size, cs, p) v c) [] (Ok v).
Proof. intros E. unfold _get_breaks_cached. by rewrite E. Qed.

Lemma cached_miss (size : Z) (cs : list Z) (p : preferred) (c : lru) :
  cache_get (size, cs, p) c = None ->
  _get_breaks_cached size cs p c
  = match _get_breaks size cs p with
    | Ok v => mk_outcome (cache_store (size, cs, p) v c) [] (Ok v)
    | Raise e => mk_outcome c [] (Raise e)
    end.
Proof. intros E. unfold _get_breaks_cached. by rewrite E. Qed.

(** X8: a call of the detector that returns leaves its value in the
    cache under its arguments, and the same call made again is answered
    with that value and changes the cache no further; a call that raises
    leaves the cache as it was. *)
Theorem cached_call_stores :
  forall (size : Z) (chunk_sizes : list Z) (p : preferred) (c : lru),
    reachable c ->
    let o := _get_breaks_cached size chunk_sizes p c in
    match returned o with
    | Ok v =>
        cache_get (size, chunk_sizes, p) (cache_after o) = Some v
        /\ _get_breaks_cached size chunk_sizes p (cache_after o)
           = mk_outcome (cache_after o) [] (Ok v)
    | Raise _ => cache_after o = c
    end.
Proof.
  intros size cs p c Hc o. subst o.
  destruct (cache_get (size, cs, p) c) as [v|] eqn:E.
  - rewrite (cached_hit _ _ _ _ _ E). cbn [returned cache_after].
    assert (cache_get (size, cs, p) (cache_move_to_front (size, cs, p) v c)
            = Some v) as Hhit
      by (unfold cache_move_to_front; simpl; by rewrite decide_True).
    split; [exact Hhit |].
    rewrite (cached_hit _ _ _ _ _ Hhit). f_equal.
    unfold cache_move_to_front at 1 2. simpl. rewrite decide_True by done.
    rewrite cache_unlink_absent; [reflexivity |].
    by rewrite cache_get_unlink, decide_True.
  - rewrite (cached_miss _ _ _ _ E).
    destruct (_get_breaks size cs p) as [v|e]; cbn [returned cache_after];
      [|reflexivity].
    rewrite cache_store_cons.
    assert (cache_get (size, cs, p) ((size, cs, p, v) :: take (maxsize - 1) c)
            = Some v) as Hhit by (simpl; by rewrite decide_True).
    split; [exact Hhit |].
    etrans; [exact (cached_hit _ _ _ _ _ Hhit) |]. f_equal.
    unfold cache_move_to_front. simpl. rewrite decide_True by done.
    rewrite cache_unlink_absent; [reflexivity |].
    by apply cache_get_take_None.
Qed.

Lemma cached_call_stores_witness :
  let o := _get_breaks_cached 10 [5; 5] (PTuple [4; 6]) [] in
  match returned o with
  | Ok v =>
      cache_get (10, [5; 5], PTuple [4; 6]) (cache_after o) = Some v
      /\ _get_breaks_cached 10 [5; 5] (PTuple [4; 6]) (cache_after o)
         = mk_outcome (cache_after o) [] (Ok v)
  | Raise _ => cache_after o = []
  end.
Proof.
  apply (cached_call_stores 10 [5; 5] (PTuple [4; 6]) []).
  apply reachable_clear.
Defined.

(** ** The resolver *)

Lemma py_or_effective (chunks : gmap string T_ChunkDim) (dim : string)
    (fallback : T_ChunkDim) :
  py_or (default CD_None (chunks !! dim)) fallback
  = default fallback (effective_request chunks dim).
Proof.
  unfold py_or, effective_request.
  destruct (chunks !! dim) as [v|]; simpl; [|reflexivity].
  by destruct (truthy v).
Qed.

Section ResolverMore.

Context {dtype : Type} {chunkmanager : ChunkManagerEntrypoint dtype}.

Lemma candidate_chunk_shape_ext (m1 m2 : gmap string T_ChunkDim)
    (dims : list string) (pcs : list preferred) :
  (forall dim, dim ∈ dims -> effective_request m1 dim = effective_request m2 dim) ->
  candidate_chunk_shape m1 dims pcs = candidate_chunk_shape m2 dims pcs.
Proof.
  intros Hext. unfold candidate_chunk_shape.
  destruct (zip_strict dims pcs) as [zs|e] eqn:Hzip; [|reflexivity].
  apply zip_strict_Ok in Hzip as [_ ->]. f_equal.
  apply map_ext_in. intros [dim p] Hin. simpl.
  rewrite !py_or_effective, Hext; [reflexivity |].
  apply list_elem_of_In in Hin. by apply elem_of_zip_l in Hin.
Qed.

(** X10: [_get_chunk] reads the request only at the dimensions of the
    variable and only for values that are true: two requests that agree
    there give the same mapping, the same warnings and the same cache.
    A request for a dimension that the variable does not have is ignored,
    and so is a requested [None] or 0. *)
Theorem get_chunk_effective_requests :
  forall (var : variable dtype) (chunks1 chunks2 : chunks_arg) (c : lru),
    (forall dim,
        dim ∈ dims var ->
        effective_request (chunks_mapping (dims var) chunks1) dim
        = effective_request (chunks_mapping (dims var) chunks2) dim) ->
    _get_chunk var chunks1 c = _get_chunk var chunks2 c.
Proof.
  intros var chunks1 chunks2 c Hext. unfold _get_chunk.
  destruct (is_IndexVariable var); [reflexivity |].
  unfold bind at 1 3. unfold lift at 1 3. cbn [returned cache_after warnings].
  destruct (preferred_chunk_shape_of _ _ _) as [pcs|e]; [|reflexivity].
  unfold bind at 1 4. unfold lift at 1 4. cbn [returned cache_after warnings].
  by rewrite (candidate_chunk_shape_ext _ _ _ _ Hext).
Qed.

Lemma warn_break_keys (pc : gmap string preferred) (dim : string) (size : Z)
    (cs : list Z) (c : lru) :
  (warnings (warn_break pc dim size cs c)).*1 `sublist_of` [dim].
Proof.
  unfold warn_break. destruct (pc !! dim) as [p|]; [|apply sublist_nil_l].
  unfold bind. rewrite cached_warnings.
  destruct (returned _) as [d|e]; simpl; [|apply sublist_nil_l].
  destruct (truthy_disagreement d); simpl; [reflexivity | apply sublist_nil_l].
Qed.

Lemma warn_breaks_keys (pc : gmap string preferred) (dims : list string)
    (shape : list Z) (chunk_shape : list (list Z)) (c : lru) :
  (warnings (warn_breaks pc dims shape chunk_shape c)).*1 `sublist_of` dims.
Proof.
  revert shape chunk_shape c.
  induction dims as [|dim dims IH]; intros [|size shape] [|cs chunk_shape] c;
    simpl; try apply sublist_nil_l.
  unfold bind.
  pose proof (warn_break_keys pc dim size cs c) as Hw.
  destruct (returned _) as [[]|e]; simpl.
  - rewrite fmap_app. apply (sublist_app _ [dim] _ dims); [exact Hw | apply IH].
  - apply (sublist_inserts_r dims) in Hw. exact Hw.
Qed.

(** X11: the warnings come in the order of the dimensions of the
    variable, at most one for each position: the dimensions that they
    name form a subsequence of [dims]. *)
Theorem get_chunk_warnings_in_order :
  forall (var : variable dtype) (chunks : chunks_arg) (c : lru),
    (warnings (_get_chunk var chunks c)).*1 `sublist_of` dims var.
Proof.
  intros var chunks c.
  destruct (is_IndexVariable var) eqn:Hidx.
  - unfold _get_chunk. rewrite Hidx. apply sublist_nil_l.
  - rewrite get_chunk_unfold by exact Hidx.
    destruct (normalized_chunk_shape var chunks) as [cs|e]; simpl;
      [|apply sublist_nil_l].
    destruct (negb _); [apply warn_breaks_keys | apply sublist_nil_l].
Qed.

(** What the body of the loop does from a reachable cache, in terms of the
    detector itself. *)
Lemma warn_break_spec (pc : gmap string preferred) (dim : string) (size : Z)
    (cs : list Z) (c : lru) :
  reachable c ->
  warnings (warn_break pc dim size cs c)
  = match pc !! dim with
    | Some p =>
        match _get_breaks size cs p with
        | Ok (Some n) => if n =? 0 then [] else [(dim, n)]
        | _ => []
        end
    | None => []
    end
  /\ returned (warn_break pc dim size cs c)
     = match pc !! dim with
       | Some p =>
           match _get_breaks size cs p with
           | Ok _ => Ok tt
           | Raise e => Raise e
           end
       | None => Ok tt
       end.
Proof.
  intros Hc. unfold warn_break. destruct (pc !! dim) as [p|]; [|done].
  unfold bind. rewrite cached_warnings.
  rewrite cached_returned by by apply reachable_consistent.
  destruct (_get_breaks size cs p) as [[n|]|e]; simpl; try done.
  by destruct (n =? 0).
Qed.

Lemma warn_breaks_elem (pc : gmap string preferred) (dims : list string)
    (shape : list Z) (chunk_shape : list (list Z)) (c : lru) (dim : string)
    (n : Z) :
  reachable c ->
  returned (warn_breaks pc dims shape chunk_shape c) = Ok tt ->
  (dim, n) ∈ warnings (warn_breaks pc dims shape chunk_shape c)
  <-> n <> 0
      /\ exists (i : nat) (size : Z) (cs : list Z) (p : preferred),
          dims !! i = Some dim
          /\ shape !! i = Some size
          /\ chunk_shape !! i = Some cs
          /\ pc !! dim = Some p
          /\ _get_breaks size cs p = Ok (Some n).
Proof.
  revert shape chunk_shape c.
  induction dims as [|dim0 dims IH]; intros [|size0 shape] [|cs0 chunk_shape] c Hc;
    simpl; try discriminate.
  - intros _. split; [by intros ?%elem_of_nil |].
    intros (_ & i & ? & ? & ? & Hi & _). by rewrite lookup_nil in Hi.
  - unfold bind.
    destruct (warn_break_spec pc dim0 size0 cs0 c Hc) as [Hw Hr].
    destruct (transparent_warn_break pc dim0 size0 cs0 c Hc) as [Hc' _].
    destruct (returned (warn_break pc dim0 size0 cs0 c)) as [[]|e] eqn:Hret;
      simpl; [|discriminate].
    intros Hrest. rewrite elem_of_app, (IH _ _ _ Hc' Hrest), Hw. clear IH.
    split.
    + intros [Hin|(Hn & i & size & cs & p & Hd & Hs & Hcs & Hp & Hb)].
      * destruct (pc !! dim0) as [p|] eqn:Hp; [|by apply elem_of_nil in Hin].
        destruct (_get_breaks size0 cs0 p) as [[n0|]|e] eqn:Hb;
          try by apply elem_of_nil in Hin.
        destruct (n0 =? 0) eqn:Hn0; [by apply elem_of_nil in Hin |].
        apply list_elem_of_singleton in Hin. injection Hin as -> ->.
        apply Z.eqb_neq in Hn0. split; [exact Hn0 |].
        exists 0%nat, size0, cs0, p. done.
      * split; [exact Hn |]. exists (S i), size, cs, p. done.
    + intros (Hn & [|i] & size & cs & p & Hd & Hs & Hcs & Hp & Hb); simpl in *.
      * injection Hd as ->. injection Hs as ->. injection Hcs as ->.
        left. rewrite Hp, Hb. apply Z.eqb_neq in Hn. rewrite Hn. by left.
      * right. split; [exact Hn |]. exists i, size, cs, p. done.
Qed.

(** X12: when [_get_chunk] returns, from any state that the cache can be
    in, it has warned about a dimension with an index exactly when the
    variable holds data and, at some position of that dimension, the
    detector finds that index, other than 0, between the partition that
    the chunk manager returned and the recorded preferred description. *)
Theorem get_chunk_warning_iff :
  forall (var : variable dtype) (chunks : chunks_arg) (c : lru)
         (m : list (string * list Z)) (dim : string) (n : Z),
    reachable c ->
    is_IndexVariable var = false ->
    returned (_get_chunk var chunks c) = Ok m ->
    (dim, n) ∈ warnings (_get_chunk var chunks c)
    <-> var_size var <> 0
        /\ n <> 0
        /\ exists (chunk_shape : list (list Z)) (i : nat) (size : Z)
                  (cs : list Z) (p : preferred),
            normalized_chunk_shape var chunks = Ok chunk_shape
            /\ dims var !! i = Some dim
            /\ shape var !! i = Some size
            /\ chunk_shape !! i = Some cs
            /\ default ∅ (encoding_preferred_chunks var) !! dim = Some p
            /\ _get_breaks size cs p = Ok (Some n).
Proof.
  intros var chunks c m dim n Hc Hidx. rewrite get_chunk_unfold by exact Hidx.
  destruct (normalized_chunk_shape var chunks) as [chunk_shape|e];
    simpl; [|discriminate].
  destruct (var_size var =? 0) eqn:Hsize; simpl.
  - apply Z.eqb_eq in Hsize. intros _.
    split; [by intros ?%elem_of_nil | by intros [? _]].
  - apply Z.eqb_neq in Hsize.
    destruct (returned _) as [[]|e] eqn:Hret; [|discriminate]. intros _.
    rewrite (warn_breaks_elem _ _ _ _ _ _ _ Hc Hret). split.
    + intros (Hn & i & size & cs & p & H). split; [exact Hsize |].
      split; [exact Hn |]. by exists chunk_shape, i, size, cs, p.
    + intros (_ & Hn & cs' & i & size & cs & p & [= <-] & H).
      split; [exact Hn |]. by exists i, size, cs, p.
Qed.

End ResolverMore.

Lemma get_chunk_warning_iff_witness :
  ("x"%string, 5) ∈ warnings (_get_chunk var_stored_4_6 request_x_5 [])
  <-> var_size var_stored_4_6 <> 0
      /\ 5 <> 0
      /\ exists (chunk_shape : list (list Z)) (i : nat) (size : Z)
                (cs : list Z) (p : preferred),
          normalized_chunk_shape var_stored_4_6 request_x_5 = Ok chunk_shape
          /\ dims var_stored_4_6 !! i = Some "x"%string
          /\ shape var_stored_4_6 !! i = Some size
          /\ chunk_shape !! i = Some cs
          /\ default ∅ (encoding_preferred_chunks var_stored_4_6) !! "x"%string
             = Some p
          /\ _get_breaks size cs p = Ok (Some 5).
Proof.
  apply (@get_chunk_warning_iff unit example_chunkmanager
           var_stored_4_6 request_x_5 [] [("x"%string, [5; 5])]).
  - apply reachable_clear.
  - reflexivity.
  - reflexivity.
Defined.


Lemma get_chunk_effective_requests_witness :
  _get_chunk var_stored_4_6
    (ChunksMapping
       {["x"%string := CD_Int 5; "y"%string := CD_None; "z"%string := CD_Int 7]})
    []
  = _get_chunk var_stored_4_6 request_x_5 [].
Proof.
  apply (@get_chunk_effective_requests unit example_chunkmanager).
  intros dim Hdim. apply list_elem_of_singleton in Hdim. by subst.
Defined.

(** A requested 0 is no request at all. *)
Example get_chunk_number_zero :
  _get_chunk var_stored_4_6 (ChunksNumber 0) []
  = _get_chunk var_stored_4_6 (ChunksMapping ∅) [].
Proof. reflexivity. Qed.

(** X13: when the dimension names of the variable are distinct, the
    mapping that [_get_chunk] returns lists the dimensions in their
    declared order, each with the partition that the chunk manager
    returned at its position. *)
Theorem get_chunk_mapping_in_order :
  forall (dtype : Type) (chunkmanager : ChunkManagerEntrypoint dtype)
         (var : variable dtype) (chunks : chunks_arg) (c : lru)
         (m : list (string * list Z)),
    is_IndexVariable var = false ->
    NoDup (dims var) ->
    returned (_get_chunk var chunks c) = Ok m ->
    m.*1 = dims var
    /\ exists chunk_shape,
        normalized_chunk_shape var chunks = Ok chunk_shape
        /\ m = zip (dims var) chunk_shape
        /\ forall (i : nat) (dim : string),
            dims var !! i = Some dim -> dict_get m dim = chunk_shape !! i.
Proof.
  intros dtype cm var chunks c m Hidx Hnd.
  rewrite get_chunk_unfold by exact Hidx.
  destruct (normalized_chunk_shape var chunks) as [cs|e]; simpl; [|discriminate].
  destruct (returned _) as [[]|e]; [|discriminate].
  destruct (zip_strict (dims var) cs) as [pairs|e] eqn:Hzip; [|discriminate].
  apply zip_strict_Ok in Hzip as [Hlen ->]. intros [= <-].
  assert ((zip (dims var) cs).*1 = dims var) as Hkeys
    by (apply fst_zip; lia).
  rewrite dict_NoDup by (by rewrite Hkeys).
  split; [exact Hkeys |]. exists cs. repeat split.
  clear Hkeys. revert cs Hlen. induction Hnd as [|d ds Hd Hnd IH];
    intros [|x cs] Hlen [|i] dim Hi; simpl in *; try discriminate.
  - injection Hi as ->. by rewrite decide_True.
  - rewrite decide_False.
    + apply IH; [lia | exact Hi].
    + intros ->. apply Hd. by eapply list_elem_of_lookup_2.
Qed.

Lemma get_chunk_mapping_in_order_witness :
  [("x"%string, [4; 4; 2]); ("y"%string, [0])].*1 = dims var_empty
  /\ exists chunk_shape,
      normalized_chunk_shape var_empty (ChunksNumber 4) = Ok chunk_shape
      /\ [("x"%string, [4; 4; 2]); ("y"%string, [0])]
         = zip (dims var_empty) chunk_shape
      /\ forall (i : nat) (dim : string),
          dims var_empty !! i = Some dim ->
          dict_get [("x"%string, [4; 4; 2]); ("y"%string, [0])] dim
          = chunk_shape !! i.
Proof.
  apply (get_chunk_mapping_in_order unit example_chunkmanager var_empty
           (ChunksNumber 4) []).
  - reflexivity.
  - apply NoDup_cons. split; [|apply NoDup_singleton].
    by intros [=]%list_elem_of_singleton.
  - reflexivity.
Defined.

(** ** [_maybe_chunk] *)

Lemma elem_chunks_items (dims : list string) (chunks : gmap string T_ChunkDim)
    (dim : string) (v : T_ChunkDim) :
  (dim, v) ∈ chunks_items dims chunks <-> dim ∈ dims /\ chunks !! dim = Some v.
Proof.
  induction dims as [|d dims IH]; simpl.
  - split; [by intros ?%elem_of_nil | by intros [?%elem_of_nil _]].
  - destruct (chunks !! d) as [v0|] eqn:Hd.
    + rewrite !elem_of_cons, IH. split.
      * intros [[= -> ->]|[Hin Hv]]; [by split; [left |] | by split; [right |]].
      * intros [[->|Hin] Hv]; [left; congruence | by right].
    + rewrite elem_of_cons, IH. split.
      * intros [Hin Hv]. by split; [right |].
      * intros [[->|Hin] Hv]; [congruence | done].
Qed.

Lemma chunks_items_keys (dims : list string) (chunks : gmap string T_ChunkDim) :
  (chunks_items dims chunks).*1 `sublist_of` dims.
Proof.
  induction dims as [|d dims IH]; simpl; [constructor |].
  destruct (chunks !! d); simpl; by constructor.
Qed.

Lemma dict_setitem_keys {V : Type} (d : list (string * V)) (k : string) (v : V) :
  (dict_setitem d k v).*1 = if decide (k ∈ d.*1) then d.*1 else d.*1 ++ [k].
Proof.
  induction d as [|[k0 v0] d IH].
  - rewrite decide_False; [reflexivity | apply not_elem_of_nil].
  - rewrite !fmap_cons. cbn [dict_setitem fst].
    destruct (decide (k = k0)) as [->|Hk].
    + rewrite decide_True by (by left). reflexivity.
    + rewrite fmap_cons, IH. cbn [fst].
      destruct (decide (k ∈ d.*1)) as [Hin|Hin].
      * rewrite decide_True by (by right). reflexivity.
      * rewrite decide_False; [reflexivity |].
        intros [?|?]%elem_of_cons; congruence.
Qed.

Lemma dict_fold_keys {V : Type} (pairs d : list (string * V)) :
  NoDup (d.*1) ->
  let d' := fold_left (fun d kv => dict_setitem d kv.1 kv.2) pairs d in
  NoDup (d'.*1) /\ d'.*1 `sublist_of` d.*1 ++ pairs.*1.
Proof.
  revert d; induction pairs as [|[k v] pairs IH]; intros d Hnd; simpl.
  - split; [exact Hnd | by rewrite app_nil_r].
  - assert (NoDup ((dict_setitem d k v).*1)) as Hnd'.
    { rewrite dict_setitem_keys.
      destruct (decide (k ∈ d.*1)) as [Hin|Hin]; [exact Hnd |].
      apply NoDup_app. repeat split; [exact Hnd | | apply NoDup_singleton].
      intros x Hx ->%list_elem_of_singleton. by apply Hin. }
    destruct (IH _ Hnd') as [H1 H2]. split; [exact H1 |].
    etrans; [exact H2 |]. rewrite dict_setitem_keys.
    destruct (decide (k ∈ d.*1)).
    + apply sublist_app; [reflexivity | by constructor].
    + by rewrite <- app_assoc.
Qed.

Lemma dict_get_fold_fun {V : Type} (f : string -> option V)
    (pairs d : list (string * V)) (k : string) :
  (forall k' v', (k', v') ∈ pairs -> f k' = Some v') ->
  dict_get (fold_left (fun d kv => dict_setitem d kv.1 kv.2) pairs d) k
  = if decide (k ∈ pairs.*1) then f k else dict_get d k.
Proof.
  revert d; induction pairs as [|[k0 v0] pairs IH]; intros d Hf.
  - rewrite decide_False; [reflexivity | apply not_elem_of_nil].
  - cbn [fold_left]. rewrite IH by (intros k' v' Hin; apply Hf; by right).
    rewrite dict_get_setitem, fmap_cons. cbn [fst snd].
    destruct (decide (k ∈ pairs.*1)) as [Hin|Hin].
    + rewrite decide_True; [reflexivity | by right].
    + destruct (decide (k = k0)) as [->|Hk].
      * rewrite decide_True by by left. symmetry. apply Hf. by left.
      * rewrite decide_False; [reflexivity |].
        intros [?|?]%elem_of_cons; congruence.
Qed.

Lemma dict_get_restrict_chunks (dims : list string)
    (chunks : gmap string T_ChunkDim) (dim : string) :
  dict_get (restrict_chunks dims chunks) dim
  = if decide (dim ∈ dims) then chunks !! dim else None.
Proof.
  unfold restrict_chunks, dict.
  rewrite (dict_get_fold_fun (fun k => chunks !! k))
    by (intros k v Hin; by apply elem_chunks_items in Hin as [_ ?]).
  cbn [dict_get]. destruct (decide (dim ∈ dims)) as [Hin|Hin].
  - destruct (chunks !! dim) as [v|] eqn:Hv.
    + rewrite decide_True; [done |].
      apply list_elem_of_fmap. exists (dim, v). split; [done |].
      by apply elem_chunks_items.
    + by destruct (decide (dim ∈ (chunks_items dims chunks).*1)).
  - rewrite decide_False; [done |].
    intros ((k & v) & -> & Hkv)%list_elem_of_fmap.
    by apply elem_chunks_items in Hkv as [? _].
Qed.

(** X14: the request that [_maybe_chunk] hands on holds, for every
    dimension of the variable that the caller's request mentions, the
    requested value, and nothing else; its keys are distinct and come in
    the order of the dimensions of the variable. *)
Theorem restrict_chunks_spec :
  forall (dims : list string) (chunks : gmap string T_ChunkDim),
    (forall dim,
        dict_get (restrict_chunks dims chunks) dim
        = if decide (dim ∈ dims) then chunks !! dim else None)
    /\ NoDup ((restrict_chunks dims chunks).*1)
    /\ (restrict_chunks dims chunks).*1 `sublist_of` dims.
Proof.
  intros dims chunks.
  destruct (dict_fold_keys (chunks_items dims chunks) [] NoDup_nil_2)
    as [Hnd Hsub].
  split; [|split].
  - apply dict_get_restrict_chunks.
  - exact Hnd.
  - etrans; [exact Hsub | apply chunks_items_keys].
Qed.

Lemma lookup_list_to_map_dict_get {V : Type} (l : list (string * V))
    (k : string) :
  (list_to_map l : gmap string V) !! k = dict_get l k.
Proof.
  induction l as [|[k0 v0] l IH]; simpl; [apply lookup_empty |].
  rewrite lookup_insert. destruct (decide (k0 = k)) as [->|Hk].
  - by rewrite decide_True.
  - rewrite decide_False by congruence. exact IH.
Qed.

(** X15: cutting a request down to the dimensions of the variable, as
    [_maybe_chunk] does, changes nothing of what [_get_chunk] resolves
    from it: the same mapping, the same warnings, the same cache. *)
Theorem get_chunk_restricted_request :
  forall (dtype : Type) (chunkmanager : ChunkManagerEntrypoint dtype)
         (var : variable dtype) (chunks : gmap string T_ChunkDim) (c : lru),
    _get_chunk var
      (ChunksMapping (list_to_map (restrict_chunks (dims var) chunks))) c
    = _get_chunk var (ChunksMapping chunks) c.
Proof.
  intros dtype cm var chunks c. unfold _get_chunk.
  destruct (is_IndexVariable var); [reflexivity |].
  unfold bind at 1 3. unfold lift at 1 3. cbn [returned cache_after warnings].
  destruct (preferred_chunk_shape_of _ _ _) as [pcs|e]; [|reflexivity].
  unfold bind at 1 4. unfold lift at 1 4. cbn [returned cache_after warnings].
  rewrite (candidate_chunk_shape_ext
             (chunks_mapping (dims var)
                (ChunksMapping
                   (list_to_map (restrict_chunks (dims var) chunks))))
             (chunks_mapping (dims var) (ChunksMapping chunks)));
    [reflexivity |].
  intros dim Hdim. unfold effective_request. simpl.
  by rewrite lookup_list_to_map_dict_get, dict_get_restrict_chunks, decide_True.
Qed.

Lemma first_of_each_spec (chunks : list (list Z)) :
  first_of_each chunks
  = if decide ([] ∈ chunks) then Failed IndexError
    else Done (map (fun x => default 0 (head x)) chunks).
Proof.
  induction chunks as [|x chunks IH].
  - rewrite decide_False; [reflexivity | apply not_elem_of_nil].
  - cbn [first_of_each]. destruct x as [|x0 x].
    + rewrite decide_True; [reflexivity | by left].
    + rewrite IH. destruct (decide ([] ∈ chunks)) as [Hin|Hin].
      * rewrite decide_True; [reflexivity | by right].
      * rewrite decide_False; [reflexivity |].
        intros [?|?]%elem_of_cons; [discriminate | done].
Qed.

Section MaybeChunkFacts.

Context {dtype Data Token Lock Kwargs Manager : Type}.
Context {collaborators : Collaborators dtype Data Token Lock Kwargs Manager}.

(** X16: what [_maybe_chunk] returns.  A variable without dimensions
    comes back as it is.  Otherwise the result is what [var.chunk]
    returned for the request cut down to the dimensions of the variable,
    changed at most in the entry ["chunks"] of its encoding: that entry is
    overwritten only when [overwrite_encoded_chunks] is set and the result
    is chunked, and then holds the length of the first chunk of every
    dimension. *)
Theorem maybe_chunk_done :
  forall (name : string) (var : chunkable dtype Data)
         (chunks : option (gmap string T_ChunkDim)) (token : option Token)
         (lock : option Lock) (name_prefix : string)
         (overwrite_encoded_chunks inline_array : bool)
         (chunked_array_type : chunked_array_type_arg Manager)
         (from_array_kwargs : option Kwargs) (var' : chunkable dtype Data),
    _maybe_chunk name var chunks token lock name_prefix
      overwrite_encoded_chunks inline_array chunked_array_type
      from_array_kwargs = Done var' ->
    (ndim var = 0%nat /\ var' = var)
    \/ (ndim var <> 0%nat
        /\ exists (m : Manager) (kwargs : option Kwargs)
                  (v : chunkable dtype Data),
            let request := restrict_chunks (dims (var_of var)) <$> chunks in
            guess_chunkmanager chunked_array_type = Ok m
            /\ dask_from_array_kwargs name var request token lock name_prefix
                 inline_array m from_array_kwargs = Ok kwargs
            /\ chunk var request m kwargs = Ok v
            /\ var_of var' = var_of v
            /\ ndim var' = ndim v
            /\ _data var' = _data v
            /\ chunks_of var' = chunks_of v
            /\ encoding_chunks var'
               = match chunks_of v with
                 | Some var_chunks =>
                     if overwrite_encoded_chunks
                     then Some (map (fun x => default 0 (head x)) var_chunks)
                     else encoding_chunks v
                 | None => encoding_chunks v
                 end
            /\ (overwrite_encoded_chunks = true ->
                forall var_chunks,
                  chunks_of v = Some var_chunks -> [] ∉ var_chunks)).
Proof.
  intros name var chunks token lock prefix overwrite inline cat kw var'.
  unfold _maybe_chunk.
  destruct (Nat.eqb (ndim var) 0) eqn:Hndim; simpl.
  - apply Nat.eqb_eq in Hndim. intros [= <-]. by left.
  - apply Nat.eqb_neq in Hndim.
    destruct (guess_chunkmanager cat) as [m|e]; [|discriminate].
    destruct (dask_from_array_kwargs _ _ _ _ _ _ _ _ _) as [kwargs|e] eqn:Hkw;
      [|discriminate].
    destruct (chunk _ _ _ _) as [v|e] eqn:Hchunk; [|discriminate].
    intros Hdone. right. split; [exact Hndim |].
    exists m, kwargs, v. split; [reflexivity |].
    split; [destruct chunks; exact Hkw |].
    split; [destruct chunks; exact Hchunk |]. clear Hkw Hchunk.
    destruct overwrite; simpl in Hdone.
    + destruct (chunks_of v) as [cs|] eqn:Hcs.
      * rewrite first_of_each_spec in Hdone.
        destruct (decide ([] ∈ cs)) as [Hin|Hin]; [discriminate |].
        injection Hdone as <-. simpl. rewrite Hcs.
        repeat split. by intros _ ? [= <-].
      * injection Hdone as <-. rewrite Hcs. repeat split. by intros _ ? [=].
    + injection Hdone as <-. repeat split; [by destruct (chunks_of v) | done].
Qed.

(** X17: how [_maybe_chunk] fails.  It fails only on a variable that has
    dimensions; with an exception that [guess_chunkmanager], the
    consolidation of the keyword arguments or [var.chunk] raised, or with
    [IndexError], and that only when [overwrite_encoded_chunks] is set and
    [var.chunk] returned a variable with a dimension without any chunk. *)
Theorem maybe_chunk_failed :
  forall (name : string) (var : chunkable dtype Data)
         (chunks : option (gmap string T_ChunkDim)) (token : option Token)
         (lock : option Lock) (name_prefix : string)
         (overwrite_encoded_chunks inline_array : bool)
         (chunked_array_type : chunked_array_type_arg Manager)
         (from_array_kwargs : option Kwargs) (e : error),
    _maybe_chunk name var chunks token lock name_prefix
      overwrite_encoded_chunks inline_array chunked_array_type
      from_array_kwargs = Failed e ->
    let request := restrict_chunks (dims (var_of var)) <$> chunks in
    ndim var <> 0%nat
    /\ match e with
       | External ex =>
           guess_chunkmanager chunked_array_type = Raise ex
           \/ exists m,
               guess_chunkmanager chunked_array_type = Ok m
               /\ (dask_from_array_kwargs name var request token lock
                     name_prefix inline_array m from_array_kwargs = Raise ex
                   \/ exists kwargs,
                       dask_from_array_kwargs name var request token lock
                         name_prefix inline_array m from_array_kwargs
                       = Ok kwargs
                       /\ chunk var request m kwargs = Raise ex)
       | IndexError =>
           overwrite_encoded_chunks = true
           /\ exists m kwargs v var_chunks,
               guess_chunkmanager chunked_array_type = Ok m
               /\ chunk var request m kwargs = Ok v
               /\ chunks_of v = Some var_chunks
               /\ [] ∈ var_chunks
       end.
Proof.
  intros name var chunks token lock prefix overwrite inline cat kw e.
  unfold _maybe_chunk.
  destruct (Nat.eqb (ndim var) 0) eqn:Hndim; simpl; [discriminate |].
  apply Nat.eqb_neq in Hndim. intros Hfail. split; [exact Hndim |].
  destruct (guess_chunkmanager cat) as [m|ex]; [|injection Hfail as <-; by left].
  destruct (dask_from_array_kwargs _ _ _ _ _ _ _ _ _) as [kwargs|ex] eqn:Hkw.
  2:{ injection Hfail as <-. right. exists m. split; [reflexivity |].
      left. destruct chunks; exact Hkw. }
  destruct (chunk _ _ _ _) as [v|ex] eqn:Hchunk.
  2:{ injection Hfail as <-. right. exists m. split; [reflexivity |].
      right. exists kwargs. split; destruct chunks; assumption. }
  destruct overwrite; simpl in Hfail; [|discriminate].
  destruct (chunks_of v) as [cs|] eqn:Hcs; [|discriminate].
  rewrite first_of_each_spec in Hfail.
  destruct (decide ([] ∈ cs)) as [Hin|Hin]; [|discriminate].
  injection Hfail as <-. split; [reflexivity |].
  exists m, kwargs, v, cs. repeat split; [|exact Hcs | exact Hin].
  destruct chunks; exact Hchunk.
Qed.

(** X18: with a chunk manager that is not dask's, [name], [token],
    [lock], [name_prefix] and [inline_array] play no part: whatever their
    values, [_maybe_chunk] does the same. *)
Theorem maybe_chunk_naming_only_for_dask :
  forall (name name' : string) (var : chunkable dtype Data)
         (chunks : option (gmap string T_ChunkDim)) (token token' : option Token)
         (lock lock' : option Lock) (name_prefix name_prefix' : string)
         (overwrite_encoded_chunks inline_array inline_array' : bool)
         (chunked_array_type : chunked_array_type_arg Manager)
         (from_array_kwargs : option Kwargs),
    (forall m,
        guess_chunkmanager chunked_array_type = Ok m ->
        is_DaskManager m = false) ->
    _maybe_chunk name var chunks token lock name_prefix
      overwrite_encoded_chunks inline_array chunked_array_type
      from_array_kwargs
    = _maybe_chunk name' var chunks token' lock' name_prefix'
        overwrite_encoded_chunks inline_array' chunked_array_type
        from_array_kwargs.
Proof.
  intros name name' var chunks token token' lock lock' prefix prefix'
    overwrite inline inline' cat kw Hdask.
  unfold _maybe_chunk.
  destruct (negb _); [|reflexivity].
  destruct (guess_chunkmanager cat) as [m|e]; [|reflexivity].
  unfold dask_from_array_kwargs. by rewrite (Hdask m eq_refl).
Qed.

End MaybeChunkFacts.

Lemma maybe_chunk_done_witness :
  let var' :=
    mk_chunkable var_stored_4_6 1 tt (Some [[5; 5]]) (Some [5]) in
  (ndim array_stored_4_6 = 0%nat /\ var' = array_stored_4_6)
  \/ (ndim array_stored_4_6 <> 0%nat
      /\ exists (m : unit) (kwargs : option string) (v : chunkable unit unit),
          let request :=
            restrict_chunks (dims (var_of array_stored_4_6))
              <$> Some {["x"%string := CD_Int 5; "z"%string := CD_Int 7]} in
          @guess_chunkmanager _ _ _ _ _ _ (example_collaborators true)
            ManagerDefault = Ok m
          /\ @dask_from_array_kwargs _ _ _ _ _ _ (example_collaborators true)
               "v" array_stored_4_6 request (Some "t"%string) None "xarray-"
               false m None = Ok kwargs
          /\ @chunk _ _ _ _ _ _ (example_collaborators true)
               array_stored_4_6 request m kwargs = Ok v
          /\ var_of var' = var_of v
          /\ ndim var' = ndim v
          /\ _data var' = _data v
          /\ chunks_of var' = chunks_of v
          /\ encoding_chunks var'
             = match chunks_of v with
               | Some var_chunks =>
                   if true
                   then Some (map (fun x => default 0 (head x)) var_chunks)
                   else encoding_chunks v
               | None => encoding_chunks v
               end
          /\ (true = true ->
              forall var_chunks,
                chunks_of v = Some var_chunks -> [] ∉ var_chunks)).
Proof.
  apply (@maybe_chunk_done _ _ _ _ _ _ (example_collaborators true)
           "v" array_stored_4_6
           (Some {["x"%string := CD_Int 5; "z"%string := CD_Int 7]})
           (Some "t"%string) None "xarray-" true false ManagerDefault None).
  reflexivity.
Defined.

Lemma maybe_chunk_failed_witness :
  let request :=
    restrict_chunks (dims (var_of array_stored_4_6))
      <$> Some {["x"%string := CD_Int (-1)]} in
  ndim array_stored_4_6 <> 0%nat
  /\ (@guess_chunkmanager _ _ _ _ _ _ (example_collaborators false)
        ManagerDefault
      = Raise (ChunkManagerError "chunk length must be positive")
      \/ exists m,
          @guess_chunkmanager _ _ _ _ _ _ (example_collaborators false)
            ManagerDefault = Ok m
          /\ (@dask_from_array_kwargs _ _ _ _ _ _ (example_collaborators false)
                "v" array_stored_4_6 request None None "xarray-" false m None
              = Raise (ChunkManagerError "chunk length must be positive")
              \/ exists kwargs,
                  @dask_from_array_kwargs _ _ _ _ _ _
                    (example_collaborators false)
                    "v" array_stored_4_6 request None None "xarray-" false m
                    None = Ok kwargs
                  /\ @chunk _ _ _ _ _ _ (example_collaborators false)
                       array_stored_4_6 request m kwargs
                     = Raise (ChunkManagerError
                                "chunk length must be positive"))).
Proof.
  apply (@maybe_chunk_failed _ _ _ _ _ _ (example_collaborators false)
           "v" array_stored_4_6 (Some {["x"%string := CD_Int (-1)]})
           None None "xarray-" false false ManagerDefault None
           (External (ChunkManagerError "chunk length must be positive"))).
  reflexivity.
Defined.

Lemma maybe_chunk_naming_only_for_dask_witness :
  @_maybe_chunk _ _ _ _ _ _ (example_collaborators false)
    "v" array_stored_4_6 (Some {["x"%string := CD_Int 5]})
    (Some "t"%string) None "xarray-" true false ManagerDefault None
  = @_maybe_chunk _ _ _ _ _ _ (example_collaborators false)
      "w" array_stored_4_6 (Some {["x"%string := CD_Int 5]})
      None (Some tt) "other-" true true ManagerDefault None.
Proof.
  apply (@maybe_chunk_naming_only_for_dask _ _ _ _ _ _
           (example_collaborators false)).
  reflexivity.
Defined.

(** With dask's chunk manager the array is named after the prefix, the
    name and the token. *)
Example maybe_chunk_dask_name :
  @dask_from_array_kwargs _ _ _ _ _ _ (example_collaborators true)
    "v" array_stored_4_6 None (Some "t"%string) None "xarray-" false tt None
  = Ok (Some "xarray-v-t"%string).
Proof. reflexivity. Qed.

(** A variable without dimensions is returned as it is. *)
Example maybe_chunk_scalar :
  @_maybe_chunk _ _ _ _ _ _ (example_collaborators true)
    "v" array_scalar (Some ∅) None None "xarray-" true false ManagerDefault None
  = Done array_scalar.
Proof. reflexivity. Qed.

(** ** When the resolver returns and when it raises *)

Lemma cached_Raise (size : Z) (cs : list Z) (p : preferred) (c : lru)
    (e : exception) :
  returned (_get_breaks_cached size cs p c) = Raise e ->
  p = PInt 0 /\ e = ValueError.
Proof.
  unfold _get_breaks_cached.
  destruct (cache_get (size, cs, p) c); [discriminate |].
  destruct (_get_breaks size cs p) as [v|e'] eqn:Hb; [discriminate |].
  simpl. intros [= ->]. rewrite get_breaks_unfold in Hb.
  destruct (decide (p = PInt 1)); [discriminate |].
  destruct (preferred_stops_of size p) as [ps|e'] eqn:Hps; [discriminate |].
  injection Hb as ->. by apply preferred_stops_of_Raise in Hps.
Qed.

Section ResolverErrors.

Context {dtype : Type} {chunkmanager : ChunkManagerEntrypoint dtype}.

Lemma warn_break_Raise (pc : gmap string preferred) (dim : string)
    (size : Z) (cs : list Z) (c : lru) (e : exception) :
  returned (warn_break pc dim size cs c) = Raise e ->
  e = ValueError /\ pc !! dim = Some (PInt 0).
Proof.
  unfold warn_break. destruct (pc !! dim) as [p|] eqn:Hp; [|discriminate].
  unfold bind.
  destruct (returned (_get_breaks_cached size cs p c)) as [d|e'] eqn:E; simpl.
  - by destruct (truthy_disagreement d).
  - intros [= ->]. by apply cached_Raise in E as [-> ->].
Qed.

Lemma warn_break_Ok (pc : gmap string preferred) (dim : string)
    (size : Z) (cs : list Z) (c : lru) :
  pc !! dim <> Some (PInt 0) ->
  returned (warn_break pc dim size cs c) = Ok tt.
Proof.
  intros Hp.
  destruct (returned (warn_break pc dim size cs c)) as [[]|e] eqn:E;
    [reflexivity |].
  by apply warn_break_Raise in E as [_ ?].
Qed.

Lemma warn_breaks_Raise (pc : gmap string preferred) (dims : list string)
    (shape : list Z) (chunk_shape : list (list Z)) (c : lru) (e : exception) :
  returned (warn_breaks pc dims shape chunk_shape c) = Raise e ->
  e = ValueError
  /\ (~ (length dims = length shape /\ length dims = length chunk_shape)
      \/ exists dim, dim ∈ dims /\ pc !! dim = Some (PInt 0)).
Proof.
  revert shape chunk_shape c.
  induction dims as [|dim dims IH]; intros [|size shape] [|cs chunk_shape] c;
    simpl; try discriminate;
    try (intros [= <-]; split; [reflexivity | left; intros [? ?]; discriminate]).
  unfold bind.
  destruct (returned (warn_break pc dim size cs c)) as [[]|e'] eqn:E; simpl.
  - intros Hrest. apply IH in Hrest as [-> [Hlen|(d & Hd & Hp)]].
    + split; [reflexivity |]. left. intros [? ?]. apply Hlen. split; congruence.
    + split; [reflexivity |]. right. exists d. split; [by right | exact Hp].
  - intros [= ->]. apply warn_break_Raise in E as [-> Hp].
    split; [reflexivity |]. right. exists dim. split; [by left | exact Hp].
Qed.

Lemma warn_breaks_Ok (pc : gmap string preferred) (dims : list string)
    (shape : list Z) (chunk_shape : list (list Z)) (c : lru) :
  length dims = length shape ->
  length dims = length chunk_shape ->
  (forall dim, dim ∈ dims -> pc !! dim <> Some (PInt 0)) ->
  returned (warn_breaks pc dims shape chunk_shape c) = Ok tt.
Proof.
  intros Hs Hcs Hp.
  destruct (returned (warn_breaks pc dims shape chunk_shape c)) as [[]|e] eqn:E;
    [reflexivity |].
  apply warn_breaks_Raise in E as [_ [Hlen|(d & Hd & Hd0)]].
  - by destruct Hlen.
  - by destruct (Hp d Hd).
Qed.

Lemma normalized_chunk_shape_lengths (var : variable dtype)
    (chunks : chunks_arg) (chunk_shape : list (list Z)) :
  normalized_chunk_shape var chunks = Ok chunk_shape ->
  length (dims var) = length (shape var).
Proof.
  unfold normalized_chunk_shape, preferred_chunk_shape_of.
  destruct (zip_strict (dims var) (shape var)) as [zs|e] eqn:Hzip; [|discriminate].
  intros _. by apply zip_strict_Ok in Hzip as [? _].
Qed.

(** X19: [_get_chunk] raises either what the computation of the chunk
    shape raised ([ValueError] for [dims] and [shape] of different
    lengths, or the exception of the chunk manager), or [ValueError]; and
    the latter only when the chunk manager returned another number of
    partitions than the variable has dimensions, or when the variable
    holds data and a uniform preferred length of 0 is recorded for one of
    its dimensions. *)
Theorem get_chunk_raises :
  forall (var : variable dtype) (chunks : chunks_arg) (c : lru) (e : exception),
    returned (_get_chunk var chunks c) = Raise e ->
    is_IndexVariable var = false
    /\ (normalized_chunk_shape var chunks = Raise e
        \/ e = ValueError
           /\ exists chunk_shape,
               normalized_chunk_shape var chunks = Ok chunk_shape
               /\ (length chunk_shape <> length (dims var)
                   \/ var_size var <> 0
                      /\ exists dim,
                          dim ∈ dims var
                          /\ default ∅ (encoding_preferred_chunks var) !! dim
                             = Some (PInt 0))).
Proof.
  intros var chunks c e.
  destruct (is_IndexVariable var) eqn:Hidx.
  { unfold _get_chunk. rewrite Hidx. discriminate. }
  rewrite get_chunk_unfold by exact Hidx. intros H. split; [reflexivity |].
  destruct (normalized_chunk_shape var chunks) as [cs|e'] eqn:Hn;
    simpl in H; [|left; congruence].
  right. pose proof (normalized_chunk_shape_lengths _ _ _ Hn) as Hlen.
  destruct (var_size var =? 0) eqn:Hsize; simpl in H.
  - destruct (zip_strict (dims var) cs) as [pairs|e'] eqn:Hzip; [discriminate |].
    destruct (decide (length (dims var) = length cs)) as [Heq|Hne].
    + by rewrite zip_strict_eq in Hzip.
    + rewrite zip_strict_ne in Hzip by exact Hne. injection Hzip as <-.
      injection H as <-. split; [reflexivity |]. exists cs.
      split; [reflexivity | left; congruence].
  - apply Z.eqb_neq in Hsize.
    destruct (returned (warn_breaks _ _ _ _ _)) as [[]|e'] eqn:Hw.
    + destruct (decide (length (dims var) = length cs)) as [Heq|Hne].
      * by rewrite zip_strict_eq in H.
      * rewrite zip_strict_ne in H by exact Hne. injection H as <-.
        split; [reflexivity |]. exists cs.
        split; [reflexivity | left; congruence].
    + injection H as ->. apply warn_breaks_Raise in Hw as [-> Hw].
      split; [reflexivity |]. exists cs. split; [reflexivity |].
      destruct Hw as [Hne|Hzero]; [left | by right].
      intros Heq. apply Hne. split; congruence.
Qed.

(** X20: [_get_chunk] returns whenever the chunk manager returns one
    partition for each dimension of the variable and no uniform preferred
    length of 0 is recorded for a dimension; what it returns then is the
    dictionary of the dimensions and these partitions, from any cache. *)
Theorem get_chunk_returns :
  forall (var : variable dtype) (chunks : chunks_arg) (c : lru)
         (chunk_shape : list (list Z)),
    is_IndexVariable var = false ->
    normalized_chunk_shape var chunks = Ok chunk_shape ->
    length chunk_shape = length (dims var) ->
    (forall dim,
        dim ∈ dims var ->
        default ∅ (encoding_preferred_chunks var) !! dim <> Some (PInt 0)) ->
    returned (_get_chunk var chunks c) = Ok (dict (zip (dims var) chunk_shape)).
Proof.
  intros var chunks c cs Hidx Hn Hlen Hp.
  rewrite get_chunk_unfold by exact Hidx. rewrite Hn. simpl.
  pose proof (normalized_chunk_shape_lengths _ _ _ Hn) as Hshape.
  rewrite zip_strict_eq by congruence.
  destruct (negb _); [|reflexivity].
  rewrite warn_breaks_Ok; [reflexivity | exact Hshape | congruence | exact Hp].
Qed.

End ResolverErrors.

Lemma get_chunk_raises_witness :
  is_IndexVariable var_ragged = false
  /\ (normalized_chunk_shape var_ragged request_x_5 = Raise ValueError
      \/ ValueError = ValueError
         /\ exists chunk_shape,
             normalized_chunk_shape var_ragged request_x_5 = Ok chunk_shape
             /\ (length chunk_shape <> length (dims var_ragged)
                 \/ var_size var_ragged <> 0
                    /\ exists dim,
                        dim ∈ dims var_ragged
                        /\ default ∅ (encoding_preferred_chunks var_ragged)
                             !! dim
                           = Some (PInt 0))).
Proof.
  apply (@get_chunk_raises unit example_chunkmanager var_ragged request_x_5 []).
  reflexivity.
Defined.

Lemma get_chunk_returns_witness :
  returned (_get_chunk var_stored_4_6 request_x_5 [])
  = Ok (dict (zip (dims var_stored_4_6) [[5; 5]])).
Proof.
  apply (@get_chunk_returns unit example_chunkmanager var_stored_4_6
           request_x_5 [] [[5; 5]]).
  - reflexivity.
  - reflexivity.
  - reflexivity.
  - intros dim Hdim. apply list_elem_of_singleton in Hdim. by subst.
Defined.

(** The chunk manager answering with one partition for two dimensions
    makes the strict zip raise. *)
Example get_chunk_too_few_partitions :
  returned (@_get_chunk unit careless_chunkmanager var_empty request_x_5 [])
  = Raise ValueError.
Proof. reflexivity. Qed.

(** A recorded uniform preferred length of 0 makes the detector raise. *)
Example get_chunk_preferred_zero :
  returned
    (_get_chunk
       (example_var false ["x"%string] [10] (Some {["x"%string := PInt 0]}))
       request_x_5 [])
  = Raise ValueError.
Proof. reflexivity. Qed.
